(** * Notion OS Sweeper: change detection core

    A shallow embedding of [nightingale/notion_os_sweeper.mjs] and of the
    checkpoint loader of its sibling watcher scripts, with the properties
    of the change-detection core stated over it.

    Conventions of the embedding.
    - A JavaScript string is a [string]; [<], [>=] and [===] on strings
      are the code-unit comparisons [String.ltb], [String.leb], [String.eqb].
    - An optional field (absent, [undefined] or [null]) is an [option];
      every use the scripts make of such a field is guarded by its
      truthiness, so the three absent forms need not be told apart.
    - A plain object used as a map is an association list in insertion
      order, which is the order of [Object.entries] and of
      [JSON.stringify] for keys that are not canonical array indices
      (Notion identifiers are UUIDs).
    - [async] functions are functions into [result]: a value, a thrown
      error, or fuel exhausted (the loop did not finish). *)

From Stdlib Require Import String Ascii List ZArith Lia Bool Arith PeanoNat.
From Stdlib Require Import Sorting.Permutation Sorting.Sorted.
From Stdlib Require Import Structures.OrderedTypeEx.
From Stdlib Require Decimal DecimalString.
Import ListNotations.

Local Open Scope string_scope.
Local Open Scope list_scope.

Set Implicit Arguments.

(** ** JavaScript values used by the scripts *)

(** Truthiness of an optional string: absent and [''] are falsy. *)
Definition truthy (v : option string) : bool :=
  match v with
  | Some s => negb (s =? "")
  | None => false
  end.

(** [a || b] on optional strings. *)
Definition js_or (a b : option string) : option string :=
  if truthy a then a else b.

(** [a || d] where [d] is a string literal. *)
Definition js_or_default (a : option string) (d : string) : string :=
  match a with
  | Some s => if s =? "" then d else s
  | None => d
  end.

(** [a === b] on optional strings. *)
Definition strict_eq (a b : option string) : bool :=
  match a, b with
  | Some x, Some y => x =? y
  | None, None => true
  | _, _ => false
  end.

(** [a < b] on optional strings: a comparison with an absent operand is
    false. *)
Definition js_lt (a b : option string) : bool :=
  match a, b with
  | Some x, Some y => String.ltb x y
  | _, _ => false
  end.

(** [xs || []]. *)
Definition or_empty {T : Type} (xs : option (list T)) : list T :=
  match xs with
  | Some l => l
  | None => []
  end.

(** ** Gateway payloads *)

Record rich_text := { plain_text : option string }.

Record property := {
  prop_type : option string;
  prop_title : option (list rich_text)
}.

Record page := {
  page_id : string;
  page_url : option string;
  created_time : option string;
  last_edited_time : option string;
  properties : list (string * property)
}.

Record user := { user_name : option string; user_id : option string }.

Record comment := {
  comment_id : string;
  comment_created_time : option string;
  created_by : option user;
  rich_text_of : option (list rich_text);
  nested_rich_text : option (list rich_text)
}.

(** The slimmed comment kept in the report. *)
Record comment_slim := {
  slim_id : string;
  slim_created_time : option string;
  slim_created_by : string;
  slim_text : string
}.

Inductive group := GroupA | GroupB | GroupC | GroupD.

Definition NEW := GroupA.
Definition UPDATED := GroupB.
Definition COMMENTED := GroupC.
Definition UNCHANGED := GroupD.

Definition group_eqb (g h : group) : bool :=
  match g, h with
  | GroupA, GroupA | GroupB, GroupB | GroupC, GroupC | GroupD, GroupD => true
  | _, _ => false
  end.

(** ** Pure helpers of the script *)

Definition excerptFromRichText (richText : option (list rich_text)) : string :=
  match richText with
  | None => ""
  | Some rts =>
      String.concat "" (map (fun rt => js_or_default (plain_text rt) "") rts)
  end.

Fixpoint firstTitle (props : list (string * property)) : option string :=
  match props with
  | [] => None
  | (_, v) :: rest =>
      match prop_type v with
      | Some "title" =>
          let t := excerptFromRichText (prop_title v) in
          if t =? "" then firstTitle rest else Some t
      | _ => firstTitle rest
      end
  end.

Definition pageTitleFromPage (p : page) : string :=
  match firstTitle (properties p) with
  | Some t => t
  | None => if page_id p =? "" then "Untitled" else page_id p
  end.

Definition commentPlainText (c : comment) : string :=
  let rt := match rich_text_of c with
            | Some r => Some r
            | None => nested_rich_text c
            end in
  excerptFromRichText rt.

Definition slimComment (c : comment) : comment_slim :=
  {| slim_id := comment_id c;
     slim_created_time := comment_created_time c;
     slim_created_by :=
       match created_by c with
       | Some u => js_or_default (js_or (user_name u) (user_id u)) "Unknown"
       | None => "Unknown"
       end;
     slim_text := substring 0 500 (commentPlainText c) |}.

(** ** Change Classifier *)

Definition classifyItem (p : page) (commentsSince : option (list comment_slim))
    (wasSeen : bool) : group :=
  let created := created_time p in
  let edited := last_edited_time p in
  if negb (Nat.eqb (List.length (or_empty commentsSince)) 0) then GroupC
  else if wasSeen then GroupD
  else if truthy created && truthy edited && strict_eq created edited then GroupA
  else GroupB.

(** ** Errors and results *)

Inductive error :=
| EnvError (msg : string)
| ENOENT (path : string)
| SyntaxError (path : string)
| NotionApiError (status : Z) (msg : string)
| MissingDataSourceId (databaseId : string)
| TypeError (msg : string)
| EEXIST (path : string)
| ENOTDIR (path : string)
| EISDIR (path : string)
| EACCES (path : string)
| ENOSPC (path : string).

(** The outcome of an [async] function: it resolves, it rejects, or the
    model ran out of fuel before the function's loop finished. *)
Inductive result (T : Type) :=
| Ok (v : T)
| Throw (e : error)
| OutOfFuel.

Arguments Ok {T} v.
Arguments Throw {T} e.
Arguments OutOfFuel {T}.

Definition is_ok {T : Type} (r : result T) : bool :=
  match r with
  | Ok _ => true
  | _ => false
  end.

Definition rbind {T U : Type} (r : result T) (k : T -> result U) : result U :=
  match r with
  | Ok v => k v
  | Throw e => Throw e
  | OutOfFuel => OutOfFuel
  end.

Declare Scope result_scope.
Delimit Scope result_scope with result.
Notation "'let?' x ':=' r 'in' k" := (rbind r (fun x => k))
  (at level 10, x pattern, r at level 100, k at level 200) : result_scope.

(** ** The Remote Content Gateway

    [notionFetch] is the boundary of the embedding: each of the three
    URL shapes the sweeper requests is a function of the gateway that
    either yields the decoded payload or makes [notionFetch] throw. *)

Record query_body := {
  page_size : nat;
  start_cursor : option string;
  on_or_after : option string
}.

Record query_response := {
  query_results : option (list page);
  query_has_more : bool;
  query_next_cursor : option string
}.

Record comments_response := {
  comments_results : option (list comment);
  comments_has_more : bool;
  comments_next_cursor : option string
}.

Record data_source := { data_source_ident : option string }.

Record database := {
  data_source_id : option string;
  data_sources : option (list data_source);
  database_title : option (list rich_text)
}.

Record gateway := {
  fetchDatabase : string -> result database;
  fetchQuery : string -> query_body -> result query_response;
  fetchComments : string -> option string -> result comments_response
}.

Definition PAGE_SIZE : nat := 50.
Definition MAX_PAGES : nat := 200.

(** [cursor] as it is sent: [start_cursor] is set only when truthy. *)
Definition sent_cursor (cursor : option string) : option string :=
  if truthy cursor then cursor else None.

Local Open Scope result_scope.

Definition getDatabaseAndDataSourceId (gw : gateway) (databaseId : string)
    : result (database * string) :=
  let? db := fetchDatabase gw databaseId in
  let first := match data_sources db with
               | Some (d :: _) => data_source_ident d
               | _ => None
               end in
  let dataSourceId := js_or (data_source_id db) first in
  match dataSourceId with
  | Some i => if i =? "" then Throw (MissingDataSourceId databaseId)
              else Ok (db, i)
  | None => Throw (MissingDataSourceId databaseId)
  end.

(** The request body built at each turn of the loop of [queryDataSource]. *)
Definition nextBody (editedSinceIso : option string) (results : list page)
    (cursor : option string) : query_body :=
  {| page_size := Nat.min PAGE_SIZE (MAX_PAGES - List.length results);
     start_cursor := sent_cursor cursor;
     on_or_after := sent_cursor editedSinceIso |}.

(** The [while (results.length < MAX_PAGES)] loop of [queryDataSource];
    [fuel] bounds the number of requests. *)
Fixpoint queryLoop (gw : gateway) (dataSourceId : string)
    (editedSinceIso : option string) (fuel : nat) (results : list page)
    (cursor : option string) : result (list page) :=
  if Nat.ltb (List.length results) MAX_PAGES then
    match fuel with
    | O => OutOfFuel
    | S fuel' =>
        let body := nextBody editedSinceIso results cursor in
        let? data := fetchQuery gw dataSourceId body in
        let results' := results ++ or_empty (query_results data) in
        if negb (query_has_more data) then Ok results'
        else if negb (truthy (query_next_cursor data)) then Ok results'
        else queryLoop gw dataSourceId editedSinceIso fuel' results'
               (query_next_cursor data)
    end
  else Ok results.

Definition queryDataSource (gw : gateway) (dataSourceId : string)
    (editedSinceIso : option string) (fuel : nat) : result (list page) :=
  queryLoop gw dataSourceId editedSinceIso fuel [] None.

(** [created >= sinceIso] on optional strings. *)
Definition js_ge (a b : option string) : bool :=
  match a, b with
  | Some x, Some y => String.leb y x
  | _, _ => false
  end.

(** The test guarding [out.push(c)] in [getCommentsSince]. *)
Definition keepComment (sinceIso : option string) (c : comment) : bool :=
  let created := comment_created_time c in
  negb (truthy sinceIso) || negb (truthy created) || js_ge created sinceIso.

(** The [do ... while (true)] loop of [getCommentsSince]. *)
Fixpoint commentsLoop (gw : gateway) (blockId : string)
    (sinceIso : option string) (fuel : nat) (out : list comment)
    (cursor : option string) : result (list comment) :=
  match fuel with
  | O => OutOfFuel
  | S fuel' =>
      let? data := fetchComments gw blockId (sent_cursor cursor) in
      let out' := out ++ filter (keepComment sinceIso)
                           (or_empty (comments_results data)) in
      if negb (comments_has_more data) then Ok out'
      else commentsLoop gw blockId sinceIso fuel' out'
             (comments_next_cursor data)
  end.

Definition getCommentsSince (gw : gateway) (blockId : string)
    (sinceIso : option string) (fuel : nat) : result (list comment) :=
  commentsLoop gw blockId sinceIso fuel [] None.

(** ** Plain objects as insertion-ordered maps *)

Section Assoc.
Variable V : Type.

Fixpoint lookup (k : string) (m : list (string * V)) : option V :=
  match m with
  | [] => None
  | (k', v) :: rest => if k' =? k then Some v else lookup k rest
  end.

(** [m[k] = v]: an existing key keeps its position, a new key is
    appended. *)
Fixpoint assoc_set (k : string) (v : V) (m : list (string * V))
    : list (string * V) :=
  match m with
  | [] => [(k, v)]
  | (k', v') :: rest =>
      if k' =? k then (k, v) :: rest else (k', v') :: assoc_set k v rest
  end.

Definition keys (m : list (string * V)) : list string := map fst m.
End Assoc.

(** ** The checkpoint and its store *)

Definition seen_map := list (string * string).

(** The parsed state file: [lastRunIso], [seenIds] and any other
    top-level fields, which [structuredClone] carries over. *)
Record state := {
  lastRunIso : option string;
  seenIds : option (list (string * seen_map));
  otherFields : list (string * string)
}.

(** The text of a file, represented by what [JSON.parse] makes of it:
    [JsonText st] is text that parses to the object [st] (what
    [JSON.stringify(st, null, 2) + '\n'] writes), [RawText raw] is text
    that [JSON.parse] rejects, the empty text among them. *)
Inductive file_content :=
| JsonText (st : state)
| RawText (raw : string).

(** The steps of the file system calls the script makes.
    [fs.mkdir(d, {recursive: true})] is one step; [fs.writeFile(p, data)]
    opens [p] with flag ['w'], which creates or truncates it, and then
    writes [data] into it. *)
Inductive fs_op :=
| MkdirRecursive (d : string)
| OpenTruncate (p : string)
| WriteData (p : string) (c : file_content).

(** A file system: its directories, its files, and what the host refuses
    whatever the layout (permissions, quota, size limits), as the error
    the refused step rejects with. *)
Record filesystem := {
  dirs : list string;
  files : list (string * file_content);
  refuses : fs_op -> option error
}.

Fixpoint has_slash (s : string) : bool :=
  match s with
  | EmptyString => false
  | String c rest => Ascii.eqb c "/" || has_slash rest
  end.

Fixpoint strip_last_segment (p : string) : string :=
  match p with
  | EmptyString => ""
  | String c rest => if has_slash rest then String c (strip_last_segment rest) else ""
  end.

(** [path.dirname] on POSIX paths without trailing slashes. *)
Definition dirname (p : string) : string :=
  let d := strip_last_segment p in
  if d =? "" then (if prefix "/" p then "/" else ".") else d.

Definition is_root (d : string) : bool := (d =? "/") || (d =? ".").

Fixpoint ancestors (n : nat) (d : string) : list string :=
  match n with
  | O => []
  | S n' => if is_root d then [] else d :: ancestors n' (dirname d)
  end.

Definition dir_exists (d : string) (fs : filesystem) : bool :=
  is_root d || existsb (String.eqb d) (dirs fs).

Definition is_file (p : string) (fs : filesystem) : bool :=
  existsb (String.eqb p) (keys (files fs)).

Definition add_dir (fs : filesystem) (d : string) : filesystem :=
  if dir_exists d fs then fs
  else {| dirs := d :: dirs fs; files := files fs; refuses := refuses fs |}.

Definition set_file (p : string) (c : file_content) (fs : filesystem)
    : filesystem :=
  {| dirs := dirs fs; files := assoc_set p c (files fs);
     refuses := refuses fs |}.

(** One step. A step the host refuses rejects with the host's error.
    Otherwise [mkdir] rejects when the directory to make is a file
    (EEXIST) or lies under a file (ENOTDIR); opening for writing rejects
    when the path is a directory (EISDIR), when its parent is a file
    (ENOTDIR) or does not exist (ENOENT), and else leaves the file empty;
    writing puts the data into the open file. A step that rejects leaves
    the file system as the steps before it left it. *)
Definition apply_op (op : fs_op) (fs : filesystem) : result filesystem :=
  match refuses fs op with
  | Some e => Throw e
  | None =>
      match op with
      | MkdirRecursive d =>
          if is_file d fs then Throw (EEXIST d)
          else if existsb (fun a => is_file a fs)
                    (ancestors (S (String.length d)) d)
          then Throw (ENOTDIR d)
          else Ok (fold_left add_dir
                     (List.rev (ancestors (S (String.length d)) d)) fs)
      | OpenTruncate p =>
          if dir_exists p fs then Throw (EISDIR p)
          else if is_file (dirname p) fs then Throw (ENOTDIR p)
          else if dir_exists (dirname p) fs
          then Ok (set_file p (RawText "") fs)
          else Throw (ENOENT p)
      | WriteData p c => Ok (set_file p c fs)
      end
  end.

(** Runs the steps in order and stops at the first that fails; the
    second component lists the file system after each completed step. *)
Fixpoint run_ops (ops : list fs_op) (fs : filesystem)
    : result filesystem * list filesystem :=
  match ops with
  | [] => (Ok fs, [])
  | op :: rest =>
      match apply_op op fs with
      | Ok fs' => let (r, tr) := run_ops rest fs' in (r, fs' :: tr)
      | Throw e => (Throw e, [])
      | OutOfFuel => (OutOfFuel, [])
      end
  end.

Definition writeJson_ops (p : string) (obj : state) : list fs_op :=
  [MkdirRecursive (dirname p); OpenTruncate p; WriteData p (JsonText obj)].

Definition readFile (p : string) (fs : filesystem) : result file_content :=
  match lookup p (files fs) with
  | Some c => Ok c
  | None => Throw (ENOENT p)
  end.

Definition JSON_parse (p : string) (c : file_content) : result state :=
  match c with
  | JsonText st => Ok st
  | RawText _ => Throw (SyntaxError p)
  end.

(** ** The report *)

Record item := {
  item_id : string;
  item_title : string;
  item_url : option string;
  item_created_time : option string;
  item_last_edited_time : option string;
  item_group : group;
  commentsSinceLastRun : list comment_slim
}.

Record groups := {
  group_A : list item;
  group_B : list item;
  group_C : list item;
  group_D : list item
}.

Record totals := {
  queriedPages : nat;
  total_A : nat;
  total_B : nat;
  total_C : nat;
  total_D : nat
}.

Record surface_report := {
  surfaceName : string;
  databaseId : option string;
  dataSourceId : string;
  databaseTitle : option string;
  surface_totals : totals;
  surface_groups : groups
}.

Record report := {
  ranAtIso : string;
  report_lastRunIso : option string;
  bySurface : list (string * surface_report)
}.

(** ** The process: file system and standard output *)

Record world := {
  disk : filesystem;
  stdout : list report
}.

(** Computations of the process: a result and the world they leave. *)
Definition M (T : Type) : Type := world -> result T * world.

Definition ret {T : Type} (v : T) : M T := fun w => (Ok v, w).

Definition liftR {T : Type} (r : result T) : M T := fun w => (r, w).

Definition bind {T U : Type} (m : M T) (k : T -> M U) : M U :=
  fun w =>
    match m w with
    | (Ok v, w') => k v w'
    | (Throw e, w') => (Throw e, w')
    | (OutOfFuel, w') => (OutOfFuel, w')
    end.

Declare Scope proc_scope.
Delimit Scope proc_scope with proc.
Notation "x <- m ;; k" := (bind m (fun x => k))
  (at level 61, m at next level, right associativity) : proc_scope.

Definition readJson (p : string) : M state :=
  fun w => (let? c := readFile p (disk w) in JSON_parse p c, w).

Definition writeJson (p : string) (obj : state) : M unit :=
  fun w =>
    match fst (run_ops (writeJson_ops p obj) (disk w)),
          last (snd (run_ops (writeJson_ops p obj) (disk w))) (disk w) with
    | Ok _, fs' => (Ok tt, {| disk := fs'; stdout := stdout w |})
    | Throw e, fs' => (Throw e, {| disk := fs'; stdout := stdout w |})
    | OutOfFuel, fs' => (OutOfFuel, {| disk := fs'; stdout := stdout w |})
    end.

Definition console_log (r : report) : M unit :=
  fun w => (Ok tt, {| disk := disk w; stdout := stdout w ++ [r] |}).

(** ** Configuration *)

Record environment := {
  NOTION_API_KEY : option string;
  TASKS_DB_ID : option string;
  EVENTS_QUEUE_DB_ID : option string;
  IMPORTS_QUEUE_DB_ID : option string
}.

Definition STATE_PATH : string :=
  "/Users/adammanka/clawd/state/notion-sweeper.state.json".

Record surface := {
  key : string;
  name : string;
  dbId : option string;
  seenKey : string
}.

Definition assertEnv (env : environment) : result unit :=
  if truthy (NOTION_API_KEY env) then Ok tt
  else Throw (EnvError "NOTION_API_KEY is not set in env").

Definition surfaces_of (env : environment) : list surface :=
  [ {| key := "Tasks"; name := "Tasks DB";
       dbId := TASKS_DB_ID env; seenKey := "Tasks" |};
    {| key := "EventsQueue"; name := "Events Queue DB";
       dbId := EVENTS_QUEUE_DB_ID env; seenKey := "EventsQueue" |};
    {| key := "ImportsQueue"; name := "Imports Queue DB";
       dbId := IMPORTS_QUEUE_DB_ID env; seenKey := "ImportsQueue" |} ].

(** ** Surface Scanner and Report Builder *)

Definition empty_groups : groups :=
  {| group_A := []; group_B := []; group_C := []; group_D := [] |}.

Definition group_get (g : group) (gs : groups) : list item :=
  match g with
  | GroupA => group_A gs
  | GroupB => group_B gs
  | GroupC => group_C gs
  | GroupD => group_D gs
  end.

(** [groups[group].push(item)]. *)
Definition group_push (g : group) (it : item) (gs : groups) : groups :=
  match g with
  | GroupA => {| group_A := group_A gs ++ [it]; group_B := group_B gs;
                 group_C := group_C gs; group_D := group_D gs |}
  | GroupB => {| group_A := group_A gs; group_B := group_B gs ++ [it];
                 group_C := group_C gs; group_D := group_D gs |}
  | GroupC => {| group_A := group_A gs; group_B := group_B gs;
                 group_C := group_C gs ++ [it]; group_D := group_D gs |}
  | GroupD => {| group_A := group_A gs; group_B := group_B gs;
                 group_C := group_C gs; group_D := group_D gs ++ [it] |}
  end.

(** The item the loop body of [main] builds from a page and the comments
    fetched for it. *)
Definition makeItem (seen : list string) (p : page) (comments : list comment)
    : item :=
  let pageId := page_id p in
  let wasSeen := existsb (String.eqb pageId) seen in
  let commentsSlim := map slimComment comments in
  {| item_id := pageId;
     item_title := pageTitleFromPage p;
     item_url := page_url p;
     item_created_time := created_time p;
     item_last_edited_time := last_edited_time p;
     item_group := classifyItem p (Some commentsSlim) wasSeen;
     commentsSinceLastRun := commentsSlim |}.

(** The [for (const p of pages)] loop. *)
Fixpoint scanPages (gw : gateway) (since : option string) (fuel : nat)
    (seen : list string) (pages : list page) (items : list item)
    (gs : groups) : result (list item * groups) :=
  match pages with
  | [] => Ok (items, gs)
  | p :: rest =>
      let? comments := getCommentsSince gw (page_id p) since fuel in
      let it := makeItem seen p comments in
      scanPages gw since fuel seen rest (items ++ [it])
        (group_push (item_group it) it gs)
  end.

(** The body of the [for (const s of surfaces)] loop that builds the
    report: the value stored at [report.bySurface[s.key]]. *)
Definition scanSurface (gw : gateway) (st : state) (fuel : nat) (s : surface)
    : result surface_report :=
  let since := lastRunIso st in
  let seenIdsMap := match seenIds st with
                    | Some m => or_empty (lookup (seenKey s) m)
                    | None => []
                    end in
  let seen := keys seenIdsMap in
  let? (db, dsId) :=
    getDatabaseAndDataSourceId gw (js_or_default (dbId s) "undefined") in
  let? pages := queryDataSource gw dsId since fuel in
  let? (_, gs) := scanPages gw since fuel seen pages [] empty_groups in
  Ok {| surfaceName := name s;
        databaseId := dbId s;
        dataSourceId := dsId;
        databaseTitle := match database_title db with
                         | Some t => Some (excerptFromRichText (Some t))
                         | None => None
                         end;
        surface_totals :=
          {| queriedPages := List.length pages;
             total_A := List.length (group_A gs);
             total_B := List.length (group_B gs);
             total_C := List.length (group_C gs);
             total_D := List.length (group_D gs) |};
        surface_groups := gs |}.

Fixpoint scanSurfaces (gw : gateway) (st : state) (fuel : nat)
    (surfaces : list surface) (by_surface : list (string * surface_report))
    : result (list (string * surface_report)) :=
  match surfaces with
  | [] => Ok by_surface
  | s :: rest =>
      let? r := scanSurface gw st fuel s in
      scanSurfaces gw st fuel rest (assoc_set (key s) r by_surface)
  end.

(** ** Checkpoint Committer *)

Definition SEEN_CAP : nat := 2000.

Definition stamp (ranAt : string) (it : item) : string :=
  js_or_default (item_last_edited_time it) ranAt.

(** The two nested loops over the groups ['A', 'B', 'C', 'D'] and their
    items, each step doing [cur[it.id] = it.last_edited_time || ranAtIso]. *)
Definition mergeSeen (ranAt : string) (gs : groups) (cur : seen_map)
    : seen_map :=
  fold_left
    (fun cur g =>
       fold_left (fun cur it => assoc_set (item_id it) (stamp ranAt it) cur)
                 (group_get g gs) cur)
    [GroupA; GroupB; GroupC; GroupD] cur.

Section Collation.
(** [String.prototype.localeCompare] of the host: negative, zero or
    positive. *)
Variable localeCompare : string -> string -> Z.

(** The comparator passed to [sort]:
    [(a, b) => String(b[1]).localeCompare(String(a[1]))]. *)
Definition byStampDesc (a b : string * string) : Z :=
  localeCompare (snd b) (snd a).

(** [Array.prototype.sort] is stable: an element goes before the first
    one it does not compare greater than. *)
Fixpoint insertEntry (x : string * string) (l : list (string * string))
    : list (string * string) :=
  match l with
  | [] => [x]
  | y :: rest =>
      if (byStampDesc x y <=? 0)%Z then x :: l else y :: insertEntry x rest
  end.

Definition sortEntries (l : list (string * string)) : list (string * string) :=
  fold_right insertEntry [] l.

(** [Object.entries(cur).sort(...).slice(0, 2000)]. *)
Definition boundSeen (cur : seen_map) : seen_map :=
  firstn SEEN_CAP (sortEntries cur).

(** The body of the second [for (const s of surfaces)] loop. *)
Definition commitSurface (rep : report) (nextState : state) (s : surface)
    : result state :=
  let cur := match seenIds nextState with
             | Some m => or_empty (lookup (seenKey s) m)
             | None => []
             end in
  match lookup (key s) (bySurface rep) with
  | None => Throw (TypeError "Cannot read properties of undefined (reading 'groups')")
  | Some surfaced =>
      let cur' := mergeSeen (ranAtIso rep) (surface_groups surfaced) cur in
      let entries := boundSeen cur' in
      match seenIds nextState with
      | None => Throw (TypeError "Cannot set properties of undefined")
      | Some m =>
          Ok {| lastRunIso := lastRunIso nextState;
                seenIds := Some (assoc_set (seenKey s) entries m);
                otherFields := otherFields nextState |}
      end
  end.

Fixpoint commitSurfaces (rep : report) (nextState : state)
    (surfaces : list surface) : result state :=
  match surfaces with
  | [] => Ok nextState
  | s :: rest =>
      let? nextState' := commitSurface rep nextState s in
      commitSurfaces rep nextState' rest
  end.

Definition commit (rep : report) (st : state) (surfaces : list surface)
    : result state :=
  let nextState := {| lastRunIso := Some (ranAtIso rep);
                      seenIds := seenIds st;
                      otherFields := otherFields st |} in
  commitSurfaces rep nextState surfaces.

(** ** The run *)

Local Open Scope proc_scope.

(** [main] from the state already loaded, over a list of surfaces. *)
Definition sweep (gw : gateway) (now : string) (fuel : nat)
    (surfaces : list surface) (st : state) : M unit :=
  let missing := map key (filter (fun s => negb (truthy (dbId s))) surfaces) in
  if negb (Nat.eqb (List.length missing) 0)
  then liftR (Throw (EnvError "Missing env DB ids"))
  else
    by_surface <- liftR (scanSurfaces gw st fuel surfaces []) ;;
    let rep := {| ranAtIso := now;
                  report_lastRunIso := lastRunIso st;
                  bySurface := by_surface |} in
    nextState <- liftR (commit rep st surfaces) ;;
    _ <- console_log rep ;;
    writeJson STATE_PATH nextState.

Definition main (env : environment) (gw : gateway) (now : string)
    (fuel : nat) : M unit :=
  _ <- liftR (assertEnv env) ;;
  st <- readJson STATE_PATH ;;
  sweep gw now fuel (surfaces_of env) st.
End Collation.

(** ** Fixtures: pages and comments used as concrete inputs *)

Definition mkPage (i : string) (created edited : option string) : page :=
  {| page_id := i; page_url := None; created_time := created;
     last_edited_time := edited; properties := [] |}.

Definition mkComment (i : string) (created : option string) : comment :=
  {| comment_id := i; comment_created_time := created; created_by := None;
     rich_text_of := None; nested_rich_text := None |}.

Definition t0 : string := "2024-05-01T10:00:00.000Z".
Definition t1 : string := "2024-05-02T10:00:00.000Z".
Definition t2 : string := "2024-05-03T10:00:00.000Z".

Definition page_fresh : page := mkPage "page-fresh" (Some t1) (Some t1).
Definition page_edited : page := mkPage "page-edited" (Some t0) (Some t1).
Definition page_unstamped : page := mkPage "page-unstamped" None None.
Definition page_uncreated : page := mkPage "page-uncreated" None (Some t1).

Definition slim_one : comment_slim := slimComment (mkComment "c1" (Some t2)).

(** ** Reference definitions used to state the properties *)

Definition allComments (pages : list comments_response) : list comment :=
  flat_map (fun d => or_empty (comments_results d)) pages.

(** The pages of comments the gateway serves for a block: the first page
    and then the page at each returned cursor, up to the page that
    reports no more. *)
Fixpoint commentPages (gw : gateway) (blockId : string) (fuel : nat)
    (cursor : option string) : result (list comments_response) :=
  match fuel with
  | O => OutOfFuel
  | S fuel' =>
      let? data := fetchComments gw blockId (sent_cursor cursor) in
      if negb (comments_has_more data) then Ok [data]
      else
        let? rest := commentPages gw blockId fuel' (comments_next_cursor data) in
        Ok (data :: rest)
  end.

(** The scanner as the specification words it: pages of [PAGE_SIZE] items
    are fetched until the gateway reports no further pages or until
    [pagesLeft] pages have been fetched. *)
Fixpoint scanByPageCount (gw : gateway) (dataSourceId : string)
    (editedSinceIso : option string) (pagesLeft : nat) (results : list page)
    (cursor : option string) : result (list page) :=
  match pagesLeft with
  | O => Ok results
  | S n =>
      let body := {| page_size := PAGE_SIZE;
                     start_cursor := sent_cursor cursor;
                     on_or_after := sent_cursor editedSinceIso |} in
      let? data := fetchQuery gw dataSourceId body in
      let results' := results ++ or_empty (query_results data) in
      if negb (query_has_more data) then Ok results'
      else scanByPageCount gw dataSourceId editedSinceIso n results'
             (query_next_cursor data)
  end.

Definition scan_spec (gw : gateway) (dataSourceId : string)
    (editedSinceIso : option string) : result (list page) :=
  scanByPageCount gw dataSourceId editedSinceIso MAX_PAGES [] None.

(** ** Fixtures: a gateway that serves fixed lists page by page *)

Definition nat_to_string (n : nat) : string :=
  DecimalString.NilEmpty.string_of_uint (Nat.to_uint n).

Definition string_to_nat (s : string) : option nat :=
  option_map Nat.of_uint (DecimalString.NilEmpty.uint_of_string s).

Definition cursor_offset (cursor : option string) : nat :=
  match cursor with
  | Some c => match string_to_nat c with
              | Some n => n
              | None => 0
              end
  | None => 0
  end.

(** The slice of [items] at [cursor], of at most [size] items, whether
    more follow, and the cursor of what follows. *)
Definition serveSlice {T : Type} (items : list T) (size : nat)
    (cursor : option string) : list T * bool * option string :=
  let off := cursor_offset cursor in
  let more := Nat.ltb (off + size) (List.length items) in
  (firstn size (skipn off items), more,
   if more then Some (nat_to_string (off + size)) else None).

Definition listGateway (broken : string -> bool)
    (pagesOf : string -> list page) (commentsOf : string -> list comment)
    : gateway :=
  {| fetchDatabase := fun dbid =>
       if broken dbid then Throw (NotionApiError 502 "Bad Gateway")
       else Ok {| data_source_id := None;
                  data_sources := Some [ {| data_source_ident := Some dbid |} ];
                  database_title := None |};
     fetchQuery := fun ds body =>
       let '(slice, more, next) :=
         serveSlice (pagesOf ds) (page_size body) (start_cursor body) in
       Ok {| query_results := Some slice; query_has_more := more;
             query_next_cursor := next |};
     fetchComments := fun blockId cursor =>
       if broken blockId then Throw (NotionApiError 502 "Bad Gateway")
       else
         let '(slice, more, next) := serveSlice (commentsOf blockId) 100 cursor in
         Ok {| comments_results := Some slice; comments_has_more := more;
               comments_next_cursor := next |} |}.

Definition numberedPages (n : nat) : list page :=
  map (fun i => mkPage ("page-" ++ nat_to_string i) (Some t0) (Some t1))
      (seq 0 n).

Definition never (_ : string) : bool := false.
Definition noComments (_ : string) : list comment := [].

Definition gateway120 : gateway :=
  listGateway never (fun _ => numberedPages 120) noComments.

Definition gateway250 : gateway :=
  listGateway never (fun _ => numberedPages 250) noComments.

(** A gateway whose every response announces more pages but hands back no
    cursor. *)
Definition gatewayNoCursor : gateway :=
  {| fetchDatabase := fetchDatabase gateway250;
     fetchQuery := fun _ body =>
       Ok {| query_results := Some (firstn (page_size body) (numberedPages 3));
             query_has_more := true;
             query_next_cursor := None |};
     fetchComments := fetchComments gateway250 |}.

Definition comment_undated : comment := mkComment "c-undated" None.
Definition comment_old : comment := mkComment "c-old" (Some t0).
Definition comment_recent : comment := mkComment "c-recent" (Some t2).

Definition gatewayComments : gateway :=
  listGateway never (fun _ => [page_fresh])
    (fun _ => [comment_undated; comment_old; comment_recent]).

(** ** Fixtures: a checkpoint on disk, an environment, failing gateways *)

(** Code-unit collation: the order of [localeCompare] on ISO-8601 UTC
    timestamps of one format; on equal strings every collation gives 0. *)
Definition codeUnitCompare (a b : string) : Z :=
  match String.compare a b with
  | Lt => (-1)%Z
  | Eq => 0%Z
  | Gt => 1%Z
  end.

Definition state_old : state :=
  {| lastRunIso := Some t0;
     seenIds := Some [("Tasks", [("page-seen", t0)]);
                      ("EventsQueue", []);
                      ("ImportsQueue", [])];
     otherFields := [("note", "kept")] |}.

Definition state_new : state :=
  {| lastRunIso := Some t2;
     seenIds := Some [("Tasks", [("page-seen", t1)]);
                      ("EventsQueue", []);
                      ("ImportsQueue", [])];
     otherFields := [("note", "kept")] |}.

Definition disk_old : filesystem :=
  {| dirs := ["/Users/adammanka/clawd/state"; "/Users/adammanka/clawd";
              "/Users/adammanka"; "/Users"];
     files := [(STATE_PATH, JsonText state_old)];
     refuses := fun _ => None |}.

Definition world_old : world := {| disk := disk_old; stdout := [] |}.

(** The old checkpoint on a disk that has no room left: writing data is
    refused. *)
Definition disk_full : filesystem :=
  {| dirs := dirs disk_old; files := files disk_old;
     refuses := fun op => match op with
                          | WriteData p _ => Some (ENOSPC p)
                          | _ => None
                          end |}.

Definition world_full : world := {| disk := disk_full; stdout := [] |}.

(** The state path lies under a file: [/Users/adammanka/clawd] is a file,
    not a directory. *)
Definition disk_blocked : filesystem :=
  {| dirs := ["/Users/adammanka"; "/Users"];
     files := [("/Users/adammanka/clawd", RawText "not a directory")];
     refuses := fun _ => None |}.

(** A machine on which the sweeper never ran: no state file. *)
Definition disk_first_run : filesystem :=
  {| dirs := []; files := []; refuses := fun _ => None |}.

Definition world_first_run : world :=
  {| disk := disk_first_run; stdout := [] |}.

Definition env_ok : environment :=
  {| NOTION_API_KEY := Some "secret";
     TASKS_DB_ID := Some "db-tasks";
     EVENTS_QUEUE_DB_ID := Some "db-events";
     IMPORTS_QUEUE_DB_ID := Some "db-imports" |}.

Definition pagesOfSurface (ds : string) : list page :=
  if ds =? "db-tasks" then [page_fresh; page_edited]
  else if ds =? "db-events" then [mkPage "page-event" (Some t1) (Some t2)]
  else [].

(** The gateway fails on the second of the three surfaces. *)
Definition gatewaySecondFails : gateway :=
  listGateway (String.eqb "db-events") pagesOfSurface noComments.

(** The gateway fails on the comments of one item of the first surface. *)
Definition gatewayCommentFails : gateway :=
  listGateway (String.eqb "page-edited") pagesOfSurface noComments.

Definition gatewayHealthy : gateway :=
  listGateway never pagesOfSurface noComments.

(** ** The checkpoint loader of the sibling watcher scripts *)

Module Watcher.
(** [readJsonIfExists(p, fallback)] of [notion_comment_watcher.mjs]:
    any failure to read or to parse yields the fallback. *)
Definition readJsonIfExists (p : string) (fallback : state) : M state :=
  fun w =>
    match rbind (readFile p (disk w)) (JSON_parse p) with
    | Ok st => (Ok st, w)
    | _ => (Ok fallback, w)
    end.
End Watcher.

(** The checkpoint of a first run: no watermark, nothing seen. *)
Definition state_empty : state :=
  {| lastRunIso := None; seenIds := Some []; otherFields := [] |}.

Definition world_corrupt : world :=
  {| disk := {| dirs := dirs disk_old;
                files := [(STATE_PATH, RawText "{ lastRunIso: ")];
                refuses := fun _ => None |};
     stdout := [] |}.

(** ** Reference definitions for the committer *)

(** One step of the merge: [cur[it.id] = it.last_edited_time || ranAt]. *)
Definition recordSeen (ranAt : string) (cur : seen_map) (it : item)
    : seen_map :=
  assoc_set (item_id it) (stamp ranAt it) cur.

Definition allItems (gs : groups) : list item :=
  group_A gs ++ group_B gs ++ group_C gs ++ group_D gs.


(** What the committer stores for surface [s], from the seen map [m] of
    the previous checkpoint. *)
Definition committedSeen (localeCompare : string -> string -> Z)
    (rep : report) (m : list (string * seen_map)) (s : surface) : seen_map :=
  match lookup (key s) (bySurface rep) with
  | Some surfaced =>
      boundSeen localeCompare
        (mergeSeen (ranAtIso rep) (surface_groups surfaced)
           (or_empty (lookup (seenKey s) m)))
  | None => []
  end.

(** The order on entries, newest first. *)
Definition newerFirst (localeCompare : string -> string -> Z)
    (a b : string * string) : Prop :=
  (byStampDesc localeCompare a b <= 0)%Z.





(** ** Fixtures for the committer *)



Definition surfaceTasks : surface :=
  {| key := "Tasks"; name := "Tasks DB"; dbId := Some "db-tasks";
     seenKey := "Tasks" |}.

Definition quietSurface : surface_report :=
  {| surfaceName := "Tasks DB"; databaseId := Some "db-tasks";
     dataSourceId := "db-tasks"; databaseTitle := None;
     surface_totals := {| queriedPages := 0; total_A := 0; total_B := 0;
                          total_C := 0; total_D := 0 |};
     surface_groups := empty_groups |}.

Definition report_quiet : report :=
  {| ranAtIso := t2; report_lastRunIso := Some t0;
     bySurface := [("Tasks", quietSurface)] |}.



Definition item_of (p : page) : item := makeItem [] p [].

Definition report_tasks : report :=
  {| ranAtIso := t2; report_lastRunIso := Some t0;
     bySurface :=
       [("Tasks",
         {| surfaceName := "Tasks DB"; databaseId := Some "db-tasks";
            dataSourceId := "db-tasks"; databaseTitle := None;
            surface_totals := {| queriedPages := 3; total_A := 1; total_B := 2;
                                 total_C := 0; total_D := 0 |};
            surface_groups :=
              {| group_A := [item_of page_fresh];
                 group_B := [item_of page_edited; item_of page_unstamped];
                 group_C := []; group_D := [] |} |})] |}.

(** ** Fixtures for the report *)

Definition page_a : page := mkPage "item-a" (Some t0) (Some t1).
Definition page_b : page := mkPage "item-b" (Some t0) (Some t2).

(** Two gateways that serve the same two items in the two orders. *)
Definition gatewayBA : gateway :=
  listGateway never (fun _ => [page_b; page_a]) noComments.

Definition gatewayAB : gateway :=
  listGateway never (fun _ => [page_a; page_b]) noComments.

Definition surfaceEvents : surface :=
  {| key := "EventsQueue"; name := "Events Queue DB";
     dbId := Some "db-events"; seenKey := "EventsQueue" |}.

(** The reports a run emits, when it succeeds. *)
Definition emitted (run : M unit) (w : world) : option (list report) :=
  match run w with
  | (Ok _, w') => Some (stdout w')
  | _ => None
  end.

(** ** Fixtures for the helpers *)

Definition titledPage : page :=
  {| page_id := "page-titled"; page_url := None;
     created_time := Some t0; last_edited_time := Some t1;
     properties :=
       [("Status", {| prop_type := Some "select"; prop_title := None |});
        ("Name", {| prop_type := Some "title";
                    prop_title := Some [ {| plain_text := Some "Call " |};
                                         {| plain_text := None |};
                                         {| plain_text := Some "Ada" |} ] |})] |}.

Definition comment_authored : comment :=
  {| comment_id := "c-authored"; comment_created_time := Some t2;
     created_by := Some {| user_name := None; user_id := Some "user-7" |};
     rich_text_of := Some [ {| plain_text := Some "Looks " |};
                            {| plain_text := Some "good" |} ];
     nested_rich_text := None |}.

(** ** Reference definitions for the report *)

(** The seen map of surface [s] in checkpoint [st]:
    [state?.seenIds?.[s.seenKey] || {}]. *)
Definition seenMapOf (st : state) (s : surface) : seen_map :=
  match seenIds st with
  | Some m => or_empty (lookup (seenKey s) m)
  | None => []
  end.

(** A gateway whose database carries both forms of the data source id. *)
Definition gatewayBothIds : gateway :=
  {| fetchDatabase := fun _ =>
       Ok {| data_source_id := Some "ds-direct";
             data_sources := Some [ {| data_source_ident := Some "ds-listed" |} ];
             database_title := None |};
     fetchQuery := fetchQuery gatewayHealthy;
     fetchComments := fetchComments gatewayHealthy |}.

(** A gateway whose database has an empty [data_source_id] and lists two
    data sources, and one whose database lists a data source without id. *)
Definition gatewayListedOnly : gateway :=
  {| fetchDatabase := fun _ =>
       Ok {| data_source_id := Some "";
             data_sources := Some [ {| data_source_ident := Some "ds-listed" |};
                                    {| data_source_ident := Some "ds-second" |} ];
             database_title := None |};
     fetchQuery := fetchQuery gatewayHealthy;
     fetchComments := fetchComments gatewayHealthy |}.

Definition gatewayNoIds : gateway :=
  {| fetchDatabase := fun _ =>
       Ok {| data_source_id := None;
             data_sources := Some [ {| data_source_ident := Some "" |} ];
             database_title := None |};
     fetchQuery := fetchQuery gatewayHealthy;
     fetchComments := fetchComments gatewayHealthy |}.

(** A gateway that serves one seen and one unseen page, the seen one with
    a comment made at the watermark, a later one and an undated one. *)
Definition page_seen : page := mkPage "page-seen" (Some t0) (Some t0).

Definition gatewayDiscussed : gateway :=
  listGateway never (fun _ => [page_seen; page_fresh])
    (fun blockId =>
       if blockId =? "page-seen"
       then [comment_old; comment_recent; comment_undated]
       else []).

(** ** The seen-comment bookkeeping of the sibling watcher scripts *)

Module CommentWatcher.
Definition MAX_COMMENTS_SEEN : nat := 5000.

(** [Array.from(new Set(xs))]: the first occurrence of every element,
    in order. *)
Fixpoint distinct (seen xs : list string) : list string :=
  match xs with
  | [] => []
  | x :: rest =>
      if existsb (String.eqb x) seen then distinct seen rest
      else x :: distinct (x :: seen) rest
  end.

(** [xs.slice(-n)]: the last [n] elements. *)
Definition lastn (n : nat) (xs : list string) : list string :=
  skipn (List.length xs - n) xs.

(** [Array.from(new Set([...seenCommentIds, ...newlySeen]))
      .slice(-MAX_COMMENTS_SEEN)]. *)
Definition nextSeen (seenCommentIds newlySeen : list string)
    : list string :=
  lastn MAX_COMMENTS_SEEN (distinct [] (seenCommentIds ++ newlySeen)).
End CommentWatcher.

Definition env_no_events : environment :=
  {| NOTION_API_KEY := Some "secret";
     TASKS_DB_ID := Some "db-tasks";
     EVENTS_QUEUE_DB_ID := None;
     IMPORTS_QUEUE_DB_ID := Some "db-imports" |}.

Definition env_no_key : environment :=
  {| NOTION_API_KEY := None;
     TASKS_DB_ID := None;
     EVENTS_QUEUE_DB_ID := None;
     IMPORTS_QUEUE_DB_ID := None |}.

Definition surfaceEvents_unset : surface :=
  {| key := "EventsQueue"; name := "Events Queue DB"; dbId := None;
     seenKey := "EventsQueue" |}.

(** * Properties of the change-detection core *)

Unset Implicit Arguments.

(** ** Change Classifier *)

Lemma classifyItem_commented (p : page) (cs : option (list comment_slim))
    (wasSeen : bool) :
  or_empty cs <> [] -> classifyItem p cs wasSeen = GroupC.
Proof.
  intros Hne. unfold classifyItem.
  destruct (or_empty cs) as [|c rest]; [congruence | reflexivity].
Qed.

Lemma classifyItem_quiet (p : page) (cs : option (list comment_slim))
    (wasSeen : bool) :
  or_empty cs = [] ->
  classifyItem p cs wasSeen =
    if wasSeen then GroupD
    else if truthy (created_time p) && truthy (last_edited_time p)
            && strict_eq (created_time p) (last_edited_time p)
         then GroupA else GroupB.
Proof.
  intros He. unfold classifyItem. rewrite He. reflexivity.
Qed.

Lemma strict_eq_true (a b : option string) :
  strict_eq a b = true <-> a = b.
Proof.
  destruct a as [x|], b as [y|]; simpl; split; intros H;
    try discriminate; try reflexivity.
  - apply String.eqb_eq in H. now subst.
  - injection H as ->. apply String.eqb_refl.
Qed.

Lemma ltb_irrefl (s : string) : String.ltb s s = false.
Proof.
  unfold String.ltb.
  pose proof (proj2 (String_as_OT.cmp_eq s s) eq_refl) as E.
  unfold String_as_OT.cmp in E. now rewrite E.
Qed.

Lemma js_lt_neq (a b : option string) : js_lt a b = true -> a <> b.
Proof.
  intros H E. subst b. destruct a as [x|]; simpl in H; [|discriminate].
  rewrite ltb_irrefl in H. discriminate.
Qed.

(** C2. Comments take precedence: an item whose comments-since list is
    non-empty is classified COMMENTED whatever its timestamps and whether
    or not it was seen before; an item without comments since the
    watermark that was seen before is classified UNCHANGED. *)
Theorem classifier_priority (p : page) (cs : option (list comment_slim))
    (wasSeen : bool) :
  (or_empty cs <> [] -> classifyItem p cs wasSeen = COMMENTED) /\
  (or_empty cs = [] -> wasSeen = true -> classifyItem p cs wasSeen = UNCHANGED).
Proof.
  split.
  - apply classifyItem_commented.
  - intros He Hs. rewrite (classifyItem_quiet p cs wasSeen He), Hs.
    reflexivity.
Qed.

Lemma classifier_priority_witness :
  classifyItem page_fresh (Some [slim_one]) false = COMMENTED /\
  classifyItem page_edited (Some [slim_one]) true = COMMENTED /\
  classifyItem page_fresh (Some []) true = UNCHANGED /\
  classifyItem page_edited None true = UNCHANGED.
Proof.
  split; [|split; [|split]].
  - apply (proj1 (classifier_priority page_fresh (Some [slim_one]) false)).
    simpl. discriminate.
  - apply (proj1 (classifier_priority page_edited (Some [slim_one]) true)).
    simpl. discriminate.
  - apply (proj2 (classifier_priority page_fresh (Some []) true));
      reflexivity.
  - apply (proj2 (classifier_priority page_edited None true)); reflexivity.
Defined.

(** C3, as amended. For an item without comments since the watermark that
    was not seen before: when both timestamps are present and
    createdAt == lastEditedAt it is classified NEW, and when
    createdAt < lastEditedAt it is classified UPDATED. *)
Theorem new_vs_updated_boundary (p : page) (cs : option (list comment_slim)) :
  or_empty cs = [] ->
  (truthy (created_time p) = true -> truthy (last_edited_time p) = true ->
   created_time p = last_edited_time p ->
   classifyItem p cs false = NEW) /\
  (js_lt (created_time p) (last_edited_time p) = true ->
   classifyItem p cs false = UPDATED).
Proof.
  intros He. rewrite (classifyItem_quiet p cs false He). split.
  - intros Hc Hd Heq. rewrite Hc, Hd.
    rewrite (proj2 (strict_eq_true _ _) Heq). reflexivity.
  - intros Hlt. apply js_lt_neq in Hlt.
    destruct (strict_eq (created_time p) (last_edited_time p)) eqn:E.
    + apply strict_eq_true in E. contradiction.
    + now rewrite andb_false_r.
Qed.

Lemma new_vs_updated_boundary_witness :
  classifyItem page_fresh (Some []) false = NEW /\
  classifyItem page_edited (Some []) false = UPDATED.
Proof.
  split.
  - apply (proj1 (new_vs_updated_boundary page_fresh (Some []) eq_refl));
      reflexivity.
  - apply (proj2 (new_vs_updated_boundary page_edited (Some []) eq_refl)).
    vm_compute. reflexivity.
Defined.

(** C3 as stated fails: an unseen item without comments whose two
    timestamps are equal because both are absent is classified UPDATED,
    not NEW. *)
Lemma equal_timestamps_not_always_new :
  ~ (forall (p : page) (cs : option (list comment_slim)),
       or_empty cs = [] ->
       created_time p = last_edited_time p ->
       classifyItem p cs false = NEW).
Proof.
  intros H.
  specialize (H page_unstamped (Some []) eq_refl eq_refl).
  vm_compute in H. discriminate.
Qed.

(** C10. For an item that was not seen before and has no comments since
    the watermark: when its createdAt or its lastEditedAt is missing the
    classification is UPDATED, and a classification NEW means that both
    timestamps are present and equal. *)
Theorem missing_timestamp_is_updated (p : page)
    (cs : option (list comment_slim)) :
  or_empty cs = [] ->
  (truthy (created_time p) = false \/ truthy (last_edited_time p) = false ->
   classifyItem p cs false = UPDATED) /\
  (classifyItem p cs false = NEW ->
   truthy (created_time p) = true /\ truthy (last_edited_time p) = true /\
   created_time p = last_edited_time p).
Proof.
  intros He. rewrite (classifyItem_quiet p cs false He). split.
  - intros [H | H]; rewrite H; simpl; [reflexivity|].
    now rewrite andb_false_r.
  - destruct (truthy (created_time p)), (truthy (last_edited_time p));
      simpl; try discriminate.
    destruct (strict_eq _ _) eqn:E; [|discriminate].
    intros _. apply strict_eq_true in E. auto.
Qed.

Lemma missing_timestamp_is_updated_witness :
  classifyItem page_unstamped (Some []) false = UPDATED /\
  classifyItem page_uncreated (Some []) false = UPDATED.
Proof.
  split.
  - apply (proj1 (missing_timestamp_is_updated page_unstamped (Some []) eq_refl)).
    left. reflexivity.
  - apply (proj1 (missing_timestamp_is_updated page_uncreated (Some []) eq_refl)).
    left. reflexivity.
Defined.

(** ** Comment fetch *)

Section CommentFetch.
Variable gw : gateway.
Variable blockId : string.
Variable sinceIso : option string.

Lemma commentsLoop_pages (fuel : nat) :
  forall (out : list comment) (cursor : option string),
    commentsLoop gw blockId sinceIso fuel out cursor =
    rbind (commentPages gw blockId fuel cursor)
          (fun pages =>
             Ok (out ++ filter (keepComment sinceIso) (allComments pages))).
Proof.
  induction fuel as [|fuel IH]; intros out cursor; simpl; [reflexivity|].
  destruct (fetchComments gw blockId (sent_cursor cursor)) as [data|e|];
    simpl; try reflexivity.
  destruct (comments_has_more data); simpl.
  - rewrite IH.
    destruct (commentPages gw blockId fuel (comments_next_cursor data))
      as [rest|e|]; simpl; try reflexivity.
    unfold allComments. simpl. now rewrite filter_app, app_assoc.
  - unfold allComments. simpl. now rewrite app_nil_r.
Qed.

(** Once the fuel suffices to reach the last page, more fuel changes
    nothing. *)
Lemma commentPages_more_fuel (fuel : nat) :
  forall (cursor : option string) (pages : list comments_response),
    commentPages gw blockId fuel cursor = Ok pages ->
    forall extra,
      commentPages gw blockId (fuel + extra) cursor = Ok pages.
Proof.
  induction fuel as [|fuel IH]; intros cursor pages; cbn [commentPages];
    [discriminate|].
  intros Hrun extra. cbn [Nat.add commentPages].
  destruct (fetchComments gw blockId (sent_cursor cursor)) as [data|e|];
    cbn [rbind] in *; try discriminate.
  destruct (negb (comments_has_more data)); [exact Hrun|].
  destruct (commentPages gw blockId fuel (comments_next_cursor data))
    as [rest|e|] eqn:E; cbn [rbind] in *; try discriminate.
  now rewrite (IH _ _ E extra).
Qed.

Lemma keepComment_spec (c : comment) :
  keepComment sinceIso c = true <->
  truthy sinceIso = false \/ truthy (comment_created_time c) = false \/
  js_ge (comment_created_time c) sinceIso = true.
Proof.
  unfold keepComment.
  rewrite !orb_true_iff, !negb_true_iff. tauto.
Qed.
End CommentFetch.

Lemma filter_all_true {T : Type} (f : T -> bool) (l : list T) :
  (forall x, f x = true) -> filter f l = l.
Proof.
  intros H. induction l as [|x l IH]; simpl; [reflexivity|].
  now rewrite H, IH.
Qed.

(** C8, as amended. The per-item comment fetch reads every page of
    comments the gateway serves for the item and filters them on the
    client side: with a non-empty watermark it keeps exactly the comments
    whose createdAt is missing or is greater than or equal to the
    watermark, and without a watermark it keeps them all. *)
Theorem comments_filtered_client_side (gw : gateway) (blockId : string)
    (sinceIso : option string) (fuel : nat) :
  getCommentsSince gw blockId sinceIso fuel =
    rbind (commentPages gw blockId fuel None)
          (fun pages => Ok (filter (keepComment sinceIso) (allComments pages)))
  /\
  (forall c : comment,
     truthy sinceIso = true ->
     (keepComment sinceIso c = true <->
      truthy (comment_created_time c) = false \/
      js_ge (comment_created_time c) sinceIso = true))
  /\
  (truthy sinceIso = false ->
   getCommentsSince gw blockId sinceIso fuel =
     rbind (commentPages gw blockId fuel None)
           (fun pages => Ok (allComments pages)))
  /\
  (forall pages,
     commentPages gw blockId fuel None = Ok pages ->
     forall extra,
       getCommentsSince gw blockId sinceIso (fuel + extra) =
       Ok (filter (keepComment sinceIso) (allComments pages))).
Proof.
  assert (E : getCommentsSince gw blockId sinceIso fuel =
    rbind (commentPages gw blockId fuel None)
          (fun pages => Ok (filter (keepComment sinceIso) (allComments pages)))).
  { unfold getCommentsSince. now rewrite commentsLoop_pages. }
  split; [exact E | split; [|split]].
  - intros c Hs. rewrite keepComment_spec, Hs.
    split; [intros [H|H]; [discriminate | exact H] | tauto].
  - intros Hs. rewrite E.
    destruct (commentPages gw blockId fuel None); simpl; try reflexivity.
    rewrite filter_all_true; [reflexivity|].
    intros c. apply keepComment_spec. now left.
  - intros pages Hrun extra. unfold getCommentsSince.
    rewrite commentsLoop_pages.
    now rewrite (commentPages_more_fuel gw blockId fuel None pages Hrun extra).
Qed.

Lemma comments_filtered_client_side_witness :
  (keepComment (Some t1) comment_recent = true <->
   truthy (comment_created_time comment_recent) = false \/
   js_ge (comment_created_time comment_recent) (Some t1) = true) /\
  getCommentsSince gatewayComments "page-fresh" None 3 =
    rbind (commentPages gatewayComments "page-fresh" 3 None)
          (fun pages => Ok (allComments pages)).
Proof.
  split.
  - apply (proj1 (proj2 (comments_filtered_client_side
                           gatewayComments "page-fresh" (Some t1) 3))).
    reflexivity.
  - apply (proj1 (proj2 (proj2 (comments_filtered_client_side
                                  gatewayComments "page-fresh" None 3)))).
    reflexivity.
Defined.

(** C8 as stated fails: with a watermark present, a comment that carries
    no createdAt is kept although its createdAt is not greater than or
    equal to the watermark. *)
Lemma undated_comment_is_kept :
  getCommentsSince gatewayComments "page-fresh" (Some t1) 3 =
    Ok [comment_undated; comment_recent] /\
  js_ge (comment_created_time comment_undated) (Some t1) = false /\
  filter (fun c => js_ge (comment_created_time c) (Some t1))
         [comment_undated; comment_old; comment_recent] = [comment_recent].
Proof.
  vm_compute. repeat split.
Qed.

(** ** Surface Scanner: pagination *)

Section Pagination.
Variable gw : gateway.
Variable ds : string.
Variable since : option string.

Lemma queryLoop_O (results : list page) (cursor : option string) :
  queryLoop gw ds since 0 results cursor =
  if Nat.ltb (List.length results) MAX_PAGES then OutOfFuel else Ok results.
Proof. reflexivity. Qed.

Lemma queryLoop_S (fuel : nat) (results : list page)
    (cursor : option string) :
  queryLoop gw ds since (S fuel) results cursor =
  if Nat.ltb (List.length results) MAX_PAGES then
    rbind (fetchQuery gw ds (nextBody since results cursor))
      (fun data =>
         let results' := results ++ or_empty (query_results data) in
         if negb (query_has_more data) then Ok results'
         else if negb (truthy (query_next_cursor data)) then Ok results'
         else queryLoop gw ds since fuel results' (query_next_cursor data))
  else Ok results.
Proof. reflexivity. Qed.

Lemma queryLoop_full (fuel : nat) (results : list page)
    (cursor : option string) :
  MAX_PAGES <= List.length results ->
  queryLoop gw ds since fuel results cursor = Ok results.
Proof.
  intros H. apply Nat.ltb_ge in H.
  destruct fuel; [rewrite queryLoop_O | rewrite queryLoop_S]; now rewrite H.
Qed.

(** What a finished loop returns extends what it started from, and when
    it holds fewer than [MAX_PAGES] items its last response reported no
    more pages or carried no cursor. *)
Lemma queryLoop_stops (fuel : nat) :
  forall (results : list page) (cursor : option string) (out : list page),
    queryLoop gw ds since fuel results cursor = Ok out ->
    (exists suffix, out = results ++ suffix) /\
    (List.length results < MAX_PAGES -> List.length out < MAX_PAGES ->
     exists body data,
       fetchQuery gw ds body = Ok data /\
       (query_has_more data = false \/
        truthy (query_next_cursor data) = false) /\
       exists before, out = before ++ or_empty (query_results data)).
Proof.
  induction fuel as [|fuel IH]; intros results cursor out.
  - rewrite queryLoop_O. destruct (Nat.ltb _ _) eqn:L; [discriminate|].
    intros [= <-]. split; [exists []; now rewrite app_nil_r|].
    apply Nat.ltb_ge in L. lia.
  - rewrite queryLoop_S. destruct (Nat.ltb _ _) eqn:L.
    2:{ intros [= <-]. split; [exists []; now rewrite app_nil_r|].
        apply Nat.ltb_ge in L. lia. }
    destruct (fetchQuery gw ds (nextBody since results cursor))
      as [data|e|] eqn:F; cbn [rbind]; try discriminate.
    destruct (query_has_more data) eqn:HM; cbn [negb].
    + destruct (truthy (query_next_cursor data)) eqn:TC; cbn [negb].
      * intros Hrec.
        destruct (IH _ _ _ Hrec) as [[suffix Hs] Hstop]. split.
        { exists (or_empty (query_results data) ++ suffix).
          now rewrite app_assoc. }
        intros _ Hout.
        destruct (Nat.lt_ge_cases
                    (List.length (results ++ or_empty (query_results data)))
                    MAX_PAGES) as [Hlt | Hge].
        { now apply Hstop. }
        rewrite queryLoop_full in Hrec by exact Hge.
        injection Hrec as <-. lia.
      * intros [= <-]. split; [now eexists|].
        intros _ _. exists (nextBody since results cursor), data.
        repeat split; auto. now exists results.
    + intros [= <-]. split; [now eexists|].
      intros _ _. exists (nextBody since results cursor), data.
      repeat split; auto. now exists results.
Qed.

Hypothesis gateway_answers :
  forall body, exists data, fetchQuery gw ds body = Ok data.

Lemma queryLoop_never_throws (fuel : nat) :
  forall (results : list page) (cursor : option string) (e : error),
    queryLoop gw ds since fuel results cursor <> Throw e.
Proof.
  induction fuel as [|fuel IH]; intros results cursor e.
  - rewrite queryLoop_O. destruct (Nat.ltb _ _); discriminate.
  - rewrite queryLoop_S. destruct (Nat.ltb _ _); [|discriminate].
    destruct (gateway_answers (nextBody since results cursor)) as [data F].
    rewrite F. cbn [rbind].
    destruct (negb (query_has_more data)); [discriminate|].
    destruct (negb (truthy (query_next_cursor data))); [discriminate|].
    apply IH.
Qed.

Hypothesis gateway_progress :
  forall body data,
    0 < page_size body ->
    fetchQuery gw ds body = Ok data -> query_has_more data = true ->
    or_empty (query_results data) <> [].

Lemma queryLoop_terminates (fuel : nat) :
  forall (results : list page) (cursor : option string),
    MAX_PAGES <= fuel + List.length results ->
    exists out, queryLoop gw ds since fuel results cursor = Ok out.
Proof.
  induction fuel as [|fuel IH]; intros results cursor Hfuel.
  - exists results. now apply queryLoop_full.
  - rewrite queryLoop_S. destruct (Nat.ltb _ _) eqn:L; [|now eexists].
    apply Nat.ltb_lt in L.
    destruct (gateway_answers (nextBody since results cursor)) as [data F].
    rewrite F. cbn [rbind].
    destruct (query_has_more data) eqn:HM; cbn [negb]; [|now eexists].
    destruct (truthy (query_next_cursor data)); cbn [negb]; [|now eexists].
    apply IH. rewrite length_app.
    assert (Hsize : 0 < page_size (nextBody since results cursor)).
    { cbn [nextBody page_size]. unfold PAGE_SIZE. lia. }
    pose proof (gateway_progress _ _ Hsize F HM) as Hne.
    destruct (or_empty (query_results data)); [congruence|].
    cbn [List.length]. lia.
Qed.

Hypothesis gateway_honours_page_size :
  forall body data,
    fetchQuery gw ds body = Ok data ->
    List.length (or_empty (query_results data)) <= page_size body.

Lemma queryLoop_capped (fuel : nat) :
  forall (results : list page) (cursor : option string) (out : list page),
    List.length results <= MAX_PAGES ->
    queryLoop gw ds since fuel results cursor = Ok out ->
    List.length out <= MAX_PAGES.
Proof.
  induction fuel as [|fuel IH]; intros results cursor out Hle.
  - rewrite queryLoop_O.
    destruct (Nat.ltb _ _); [discriminate|]. now intros [= <-].
  - rewrite queryLoop_S.
    destruct (Nat.ltb _ _) eqn:L; [|now intros [= <-]].
    apply Nat.ltb_lt in L.
    destruct (fetchQuery gw ds (nextBody since results cursor))
      as [data|e|] eqn:F; cbn [rbind]; try discriminate.
    assert (Hnew : List.length (results ++ or_empty (query_results data))
                   <= MAX_PAGES).
    { rewrite length_app.
      pose proof (gateway_honours_page_size _ _ F) as Hp.
      cbn [nextBody page_size] in Hp. lia. }
    destruct (negb (query_has_more data)); [now intros [= <-]|].
    destruct (negb (truthy (query_next_cursor data))); [now intros [= <-]|].
    now apply IH.
Qed.
End Pagination.

(** The list gateway answers every query, makes progress on every page
    that announces more, and never serves more than was asked for. *)
Section ListGateway.
Variable broken : string -> bool.
Variable pagesOf : string -> list page.
Variable commentsOf : string -> list comment.

Let gw := listGateway broken pagesOf commentsOf.

Lemma listGateway_answers (ds : string) (body : query_body) :
  exists data, fetchQuery gw ds body = Ok data.
Proof.
  unfold gw, listGateway, serveSlice. cbn [fetchQuery]. now eexists.
Qed.

Lemma listGateway_progress (ds : string) (body : query_body)
    (data : query_response) :
  0 < page_size body ->
  fetchQuery gw ds body = Ok data -> query_has_more data = true ->
  or_empty (query_results data) <> [].
Proof.
  unfold gw, listGateway, serveSlice. cbn [fetchQuery].
  intros Hsize [= <-]. cbn [query_has_more query_results or_empty].
  intros Hmore%Nat.ltb_lt Hnil.
  apply (f_equal (@List.length page)) in Hnil.
  rewrite length_firstn, length_skipn in Hnil. cbn [List.length] in Hnil.
  lia.
Qed.

Lemma listGateway_honours_page_size (ds : string) (body : query_body)
    (data : query_response) :
  fetchQuery gw ds body = Ok data ->
  List.length (or_empty (query_results data)) <= page_size body.
Proof.
  unfold gw, listGateway, serveSlice. cbn [fetchQuery].
  intros [= <-]. cbn [query_results or_empty].
  rewrite length_firstn. lia.
Qed.
End ListGateway.

(** C5, as amended. The pagination loop accumulates the items of
    successive gateway pages. With 200 items or more accumulated it stops
    without a request. With fewer it asks the gateway for
    min(50, 200 - accumulated) items at the cursor it holds: an error of
    the gateway is passed on; a response that reports no further pages or
    hands back no cursor ends the scan with the items accumulated so far
    and those of the response; any other response is accumulated and the
    loop goes on at the cursor handed back. So a finished scan that holds
    fewer than 200 items ended on a response without more pages or
    without cursor. Reaching the cap is not an error: as long as the
    gateway answers, the scan never throws; when every page that
    announces more is non-empty, 200 requests always suffice; when the
    gateway serves at most the page size asked for, the scan returns at
    most 200 items. A surface with 120 items and a page size of 50 is
    returned whole. *)
Theorem pagination_stops_on_item_cap (gw : gateway) (ds : string)
    (since : option string) :
  (forall fuel, queryDataSource gw ds since fuel
                = queryLoop gw ds since fuel [] None)
  /\
  (forall fuel results cursor,
     200 <= List.length results ->
     queryLoop gw ds since fuel results cursor = Ok results)
  /\
  (forall fuel results cursor body,
     List.length results < 200 ->
     body = {| page_size := Nat.min 50 (200 - List.length results);
               start_cursor := if truthy cursor then cursor else None;
               on_or_after := if truthy since then since else None |} ->
     (forall e,
        fetchQuery gw ds body = Throw e ->
        queryLoop gw ds since (S fuel) results cursor = Throw e) /\
     (forall data,
        fetchQuery gw ds body = Ok data ->
        (query_has_more data = false \/
         truthy (query_next_cursor data) = false ->
         queryLoop gw ds since (S fuel) results cursor
         = Ok (results ++ or_empty (query_results data))) /\
        (query_has_more data = true ->
         truthy (query_next_cursor data) = true ->
         queryLoop gw ds since (S fuel) results cursor
         = queryLoop gw ds since fuel
             (results ++ or_empty (query_results data))
             (query_next_cursor data))))
  /\
  (forall fuel out,
     queryDataSource gw ds since fuel = Ok out ->
     List.length out < MAX_PAGES ->
     exists body data,
       fetchQuery gw ds body = Ok data /\
       (query_has_more data = false \/
        truthy (query_next_cursor data) = false) /\
       exists before, out = before ++ or_empty (query_results data))
  /\
  ((forall body, exists data, fetchQuery gw ds body = Ok data) ->
   (forall fuel e, queryDataSource gw ds since fuel <> Throw e) /\
   ((forall body data,
       0 < page_size body ->
       fetchQuery gw ds body = Ok data -> query_has_more data = true ->
       or_empty (query_results data) <> []) ->
    exists out, queryDataSource gw ds since MAX_PAGES = Ok out))
  /\
  ((forall body data,
      fetchQuery gw ds body = Ok data ->
      List.length (or_empty (query_results data)) <= page_size body) ->
   forall fuel out,
     queryDataSource gw ds since fuel = Ok out ->
     List.length out <= MAX_PAGES)
  /\
  queryDataSource gateway120 ds since 3 = Ok (numberedPages 120).
Proof.
  split; [reflexivity|].
  split; [intros fuel results cursor H; now apply queryLoop_full|].
  split.
  { intros fuel results cursor body Hlen ->.
    rewrite queryLoop_S.
    assert (L : Nat.ltb (List.length results) MAX_PAGES = true)
      by now apply Nat.ltb_lt.
    rewrite L.
    change (nextBody since results cursor)
      with {| page_size := Nat.min 50 (200 - List.length results);
              start_cursor := if truthy cursor then cursor else None;
              on_or_after := if truthy since then since else None |}.
    split.
    - intros e ->. reflexivity.
    - intros data ->. cbn [rbind]. split.
      + intros [H | H].
        * now rewrite H.
        * rewrite H. now destruct (negb (query_has_more data)).
      + intros Hm Hc. now rewrite Hm, Hc. }
  split; [|split; [|split]].
  - intros fuel out Hrun Hshort.
    apply (queryLoop_stops gw ds since fuel [] None out Hrun); [|exact Hshort].
    unfold MAX_PAGES. cbn [List.length]. lia.
  - intros Hans. split.
    + intros fuel e. now apply queryLoop_never_throws.
    + intros Hprog.
      apply queryLoop_terminates; try assumption; cbn [List.length]; lia.
  - intros Hsize fuel out Hrun.
    apply (queryLoop_capped gw ds since Hsize fuel [] None out);
      [cbn [List.length]; lia | exact Hrun].
  - vm_compute. reflexivity.
Qed.

Lemma pagination_stops_on_item_cap_witness :
  (exists body data,
     fetchQuery gateway120 "Tasks" body = Ok data /\
     (query_has_more data = false \/
      truthy (query_next_cursor data) = false) /\
     exists before,
       numberedPages 120 = before ++ or_empty (query_results data)) /\
  (exists out, queryDataSource gateway120 "Tasks" None MAX_PAGES = Ok out) /\
  List.length (numberedPages 120) <= MAX_PAGES /\
  queryDataSource gatewayNoCursor "Tasks" None 1 = Ok (numberedPages 3) /\
  queryLoop gateway250 "Tasks" None 0 (numberedPages 200) (Some "200")
  = Ok (numberedPages 200).
Proof.
  pose proof (pagination_stops_on_item_cap gateway120 "Tasks" None)
    as [_ [_ [_ [Hstop [Hok [Hcap Hrun]]]]]].
  split; [|split; [|split; [|split]]].
  - apply (Hstop 3 (numberedPages 120) Hrun). vm_compute. lia.
  - destruct Hok as [_ Hterm].
    { intros body. apply listGateway_answers. }
    apply Hterm. intros body data. apply listGateway_progress.
  - apply (Hcap (listGateway_honours_page_size _ _ _ "Tasks")
                3 (numberedPages 120) Hrun).
  - pose proof (pagination_stops_on_item_cap gatewayNoCursor "Tasks" None)
      as [Hstart [_ [Hturn _]]].
    rewrite Hstart.
    destruct (Hturn 0 [] None _ ltac:(cbn [List.length]; lia) eq_refl)
      as [_ Hdata].
    apply (proj1 (Hdata {| query_results := Some (numberedPages 3);
                           query_has_more := true;
                           query_next_cursor := None |} eq_refl)).
    right. reflexivity.
  - apply (proj1 (proj2 (pagination_stops_on_item_cap gateway250 "Tasks"
                           None))).
    vm_compute. lia.
Defined.

(** C5 as stated fails: the cap counts items, not gateway pages. With 250
    items on the surface the scan stops after four pages of 50 with 200
    items, although the fourth response announces more and hands back a
    cursor; a scanner that stops only on the last page or after 200 pages
    returns all 250. *)
Lemma scan_stops_at_200_items :
  queryDataSource gateway250 "Tasks" None 4 =
    Ok (firstn 200 (numberedPages 250)) /\
  (exists data,
     fetchQuery gateway250 "Tasks"
       {| page_size := 50; start_cursor := Some "150"; on_or_after := None |}
     = Ok data /\
     query_has_more data = true /\
     truthy (query_next_cursor data) = true) /\
  scan_spec gateway250 "Tasks" None = Ok (numberedPages 250) /\
  queryDataSource gateway250 "Tasks" None 4 <> scan_spec gateway250 "Tasks" None.
Proof.
  split; [vm_compute; reflexivity|].
  split; [eexists; vm_compute; repeat split|].
  split; [vm_compute; reflexivity|].
  vm_compute. discriminate.
Qed.

(** ** Checkpoint Store *)

Section AssocFacts.
Variable V : Type.

Lemma lookup_assoc_set_same (k : string) (v : V) (m : list (string * V)) :
  lookup k (assoc_set k v m) = Some v.
Proof.
  induction m as [|[k' v'] m IH]; simpl.
  - now rewrite String.eqb_refl.
  - destruct (k' =? k) eqn:E; simpl.
    + now rewrite String.eqb_refl.
    + now rewrite E.
Qed.

Lemma lookup_assoc_set_other (k q : string) (v : V)
    (m : list (string * V)) :
  q <> k -> lookup q (assoc_set k v m) = lookup q m.
Proof.
  intros Hne. induction m as [|[k' v'] m IH]; simpl.
  - apply String.eqb_neq in Hne. now rewrite String.eqb_sym, Hne.
  - destruct (k' =? k) eqn:E; simpl.
    + apply String.eqb_eq in E. subst k'.
      apply String.eqb_neq in Hne. now rewrite String.eqb_sym, Hne.
    + now rewrite IH.
Qed.

Lemma lookup_assoc_set (k q : string) (v : V) (m : list (string * V)) :
  lookup q (assoc_set k v m) = if q =? k then Some v else lookup q m.
Proof.
  destruct (q =? k) eqn:E.
  - apply String.eqb_eq in E. subst q. apply lookup_assoc_set_same.
  - apply String.eqb_neq in E. now apply lookup_assoc_set_other.
Qed.
End AssocFacts.

Lemma dir_exists_add_dir (d : string) (fs : filesystem) :
  dir_exists d (add_dir fs d) = true.
Proof.
  unfold add_dir. destruct (dir_exists d fs) eqn:E; [exact E|].
  unfold dir_exists. simpl. rewrite String.eqb_refl. simpl.
  apply orb_true_r.
Qed.

Lemma dir_exists_add_dir_mono (d d' : string) (fs : filesystem) :
  dir_exists d fs = true -> dir_exists d (add_dir fs d') = true.
Proof.
  intros H. unfold add_dir. destruct (dir_exists d' fs); [exact H|].
  unfold dir_exists in *. simpl.
  apply orb_true_iff in H as [H|H]; rewrite H; simpl;
    [reflexivity | now rewrite !orb_true_r].
Qed.

Lemma files_add_dir (d : string) (fs : filesystem) :
  files (add_dir fs d) = files fs.
Proof. unfold add_dir. now destruct (dir_exists d fs). Qed.

Lemma refuses_add_dir (d : string) (fs : filesystem) :
  refuses (add_dir fs d) = refuses fs.
Proof. unfold add_dir. now destruct (dir_exists d fs). Qed.

Lemma add_dirs_spec (l : list string) :
  forall fs : filesystem,
    files (fold_left add_dir l fs) = files fs /\
    (forall d, dir_exists d fs = true \/ In d l ->
               dir_exists d (fold_left add_dir l fs) = true).
Proof.
  induction l as [|x l IH]; intros fs; simpl.
  - split; [reflexivity|]. now intros d [H|[]].
  - destruct (IH (add_dir fs x)) as [Hf Hd]. split.
    + now rewrite Hf, files_add_dir.
    + intros d [H|[->|H]]; apply Hd; auto.
      * left. now apply dir_exists_add_dir_mono.
      * left. apply dir_exists_add_dir.
Qed.

Lemma refuses_add_dirs (l : list string) :
  forall fs : filesystem, refuses (fold_left add_dir l fs) = refuses fs.
Proof.
  induction l as [|x l IH]; intros fs; simpl; [reflexivity|].
  now rewrite IH, refuses_add_dir.
Qed.

(** When [fs.mkdir(d, {recursive: true})] resolves, [d] exists, what
    existed still exists and no file has been touched. *)
Lemma mkdir_recursive_spec (d : string) (fs fs1 : filesystem) :
  apply_op (MkdirRecursive d) fs = Ok fs1 ->
  dir_exists d fs1 = true /\ files fs1 = files fs /\
  refuses fs1 = refuses fs /\
  (forall x, dir_exists x fs = true -> dir_exists x fs1 = true).
Proof.
  unfold apply_op.
  destruct (refuses fs (MkdirRecursive d)); [discriminate|].
  destruct (is_file d fs); [discriminate|].
  destruct (existsb _ _); [discriminate|].
  intros [= <-].
  destruct (add_dirs_spec (List.rev (ancestors (S (String.length d)) d)) fs)
    as [Hf Hd].
  split; [|split; [exact Hf | split; [apply refuses_add_dirs|]]].
  - apply Hd. destruct (is_root d) eqn:R.
    + left. unfold dir_exists. now rewrite R.
    + right. apply in_rev. rewrite rev_involutive.
      cbn [ancestors]. rewrite R. now left.
  - intros x Hx. apply Hd. now left.
Qed.

Lemma open_truncate_spec (p : string) (fs fs2 : filesystem) :
  apply_op (OpenTruncate p) fs = Ok fs2 ->
  fs2 = set_file p (RawText "") fs /\
  dir_exists (dirname p) fs = true /\ dir_exists p fs = false.
Proof.
  unfold apply_op.
  destruct (refuses fs (OpenTruncate p)); [discriminate|].
  destruct (dir_exists p fs); [discriminate|].
  destruct (is_file (dirname p) fs); [discriminate|].
  destruct (dir_exists (dirname p) fs); [|discriminate].
  intros [= <-]. auto.
Qed.

Lemma write_data_spec (p : string) (c : file_content)
    (fs fs3 : filesystem) :
  apply_op (WriteData p c) fs = Ok fs3 -> fs3 = set_file p c fs.
Proof.
  unfold apply_op.
  destruct (refuses fs (WriteData p c)); [discriminate|]. now intros [= <-].
Qed.

Lemma apply_op_never_stalls (op : fs_op) (fs : filesystem) :
  apply_op op fs <> OutOfFuel.
Proof.
  unfold apply_op. destruct (refuses fs op); [discriminate|].
  destruct op as [d|p|p c].
  - destruct (is_file d fs); [discriminate|].
    destruct (existsb _ _); discriminate.
  - destruct (dir_exists p fs); [discriminate|].
    destruct (is_file (dirname p) fs); [discriminate|].
    destruct (dir_exists (dirname p) fs); discriminate.
  - discriminate.
Qed.

(** The three steps of a save that completes. *)
Lemma writeJson_steps (p : string) (obj : state) (fs fs3 : filesystem)
    (tr : list filesystem) :
  run_ops (writeJson_ops p obj) fs = (Ok fs3, tr) ->
  exists fs1,
    apply_op (MkdirRecursive (dirname p)) fs = Ok fs1 /\
    dir_exists (dirname p) fs1 = true /\ files fs1 = files fs /\
    (forall x, dir_exists x fs = true -> dir_exists x fs1 = true) /\
    fs3 = set_file p (JsonText obj) (set_file p (RawText "") fs1) /\
    tr = [fs1; set_file p (RawText "") fs1; fs3].
Proof.
  unfold writeJson_ops. cbn [run_ops].
  destruct (apply_op (MkdirRecursive (dirname p)) fs) as [fs1|e|] eqn:E1;
    try discriminate.
  destruct (apply_op (OpenTruncate p) fs1) as [fs2|e|] eqn:E2;
    try discriminate.
  destruct (apply_op (WriteData p (JsonText obj)) fs2) as [fs3'|e|] eqn:E3;
    try discriminate.
  intros [= <- <-].
  destruct (mkdir_recursive_spec _ _ _ E1) as [Hd [Hf [_ Hmono]]].
  apply open_truncate_spec in E2 as [-> _].
  apply write_data_spec in E3 as ->.
  exists fs1. repeat split; auto.
Qed.


Lemma run_ops_never_stalls (ops : list fs_op) :
  forall fs : filesystem, fst (run_ops ops fs) <> OutOfFuel.
Proof.
  induction ops as [|op rest IH]; intros fs; cbn [run_ops]; [discriminate|].
  destruct (apply_op op fs) as [fs'|e|] eqn:E.
  - specialize (IH fs'). destruct (run_ops rest fs'). exact IH.
  - discriminate.
  - now apply apply_op_never_stalls in E.
Qed.

(** What the world is after a save that resolved. *)
Lemma writeJson_success (p : string) (obj : state) (w w' : world) :
  writeJson p obj w = (Ok tt, w') ->
  exists fs1,
    files fs1 = files (disk w) /\
    dir_exists (dirname p) fs1 = true /\
    w' = {| disk := set_file p (JsonText obj) (set_file p (RawText "") fs1);
            stdout := stdout w |}.
Proof.
  unfold writeJson.
  destruct (run_ops (writeJson_ops p obj) (disk w)) as [r tr] eqn:Hrun.
  cbn [fst snd]. destruct r as [fs3|e|]; try discriminate.
  destruct (writeJson_steps p obj (disk w) fs3 tr Hrun)
    as [fs1 [_ [Hd [Hf [_ [-> ->]]]]]].
  cbn [last]. intros [= <-]. now exists fs1.
Qed.




(** ** Commit only after a complete scan *)

Section Run.
Variable localeCompare : string -> string -> Z.
Variable gw : gateway.
Variable now : string.
Variable fuel : nat.

Lemma scanPages_comment_failure (since : option string)
    (seen : list string) (pages : list page) :
  forall (p : page) (items : list item) (gs : groups),
    In p pages ->
    is_ok (getCommentsSince gw (page_id p) since fuel) = false ->
    is_ok (scanPages gw since fuel seen pages items gs) = false.
Proof.
  induction pages as [|q rest IH]; intros p items gs Hin Hfail;
    [contradiction|].
  cbn [scanPages].
  destruct (getCommentsSince gw (page_id q) since fuel) as [cs|e|] eqn:E;
    cbn [rbind]; try reflexivity.
  destruct Hin as [-> | Hin].
  - rewrite E in Hfail. discriminate.
  - now apply (IH p).
Qed.

Lemma scanSurface_comment_failure (st : state) (s : surface)
    (db : database) (dsId : string) (pages : list page) (p : page) :
  getDatabaseAndDataSourceId gw (js_or_default (dbId s) "undefined")
    = Ok (db, dsId) ->
  queryDataSource gw dsId (lastRunIso st) fuel = Ok pages ->
  In p pages ->
  is_ok (getCommentsSince gw (page_id p) (lastRunIso st) fuel) = false ->
  is_ok (scanSurface gw st fuel s) = false.
Proof.
  intros Hdb Hq Hin Hfail. unfold scanSurface.
  rewrite Hdb. cbn [rbind]. rewrite Hq. cbn [rbind].
  pose proof (scanPages_comment_failure (lastRunIso st)
                (keys match seenIds st with
                      | Some m => or_empty (lookup (seenKey s) m)
                      | None => []
                      end)
                pages p [] empty_groups Hin Hfail) as H.
  destruct (scanPages _ _ _ _ _ _ _) as [[items gs]|e|];
    [discriminate | reflexivity | reflexivity].
Qed.

Lemma scanSurfaces_failure (st : state) (surfaces : list surface) :
  forall (s : surface) (acc : list (string * surface_report)),
    In s surfaces ->
    is_ok (scanSurface gw st fuel s) = false ->
    is_ok (scanSurfaces gw st fuel surfaces acc) = false.
Proof.
  induction surfaces as [|x rest IH]; intros s acc Hin Hfail;
    [contradiction|].
  cbn [scanSurfaces].
  destruct (scanSurface gw st fuel x) as [r|e|] eqn:E; cbn [rbind];
    try reflexivity.
  destruct Hin as [-> | Hin].
  - rewrite E in Hfail. discriminate.
  - now apply (IH s).
Qed.

(** A sweep in which the scan of a surface fails ends there: it does not
    succeed and leaves the world as it found it. *)
Lemma sweep_scan_failure (surfaces : list surface) (st : state)
    (w : world) (s : surface) :
  In s surfaces ->
  is_ok (scanSurface gw st fuel s) = false ->
  is_ok (fst (sweep localeCompare gw now fuel surfaces st w)) = false /\
  snd (sweep localeCompare gw now fuel surfaces st w) = w.
Proof.
  intros Hin Hfail. unfold sweep.
  destruct (negb (Nat.eqb _ 0)); [now split|].
  unfold bind, liftR.
  pose proof (scanSurfaces_failure st surfaces s [] Hin Hfail) as H.
  destruct (scanSurfaces gw st fuel surfaces []) as [by_surface|e|];
    [discriminate | now split | now split].
Qed.

Lemma main_scan_failure (env : environment) (w : world) (st : state)
    (s : surface) :
  fst (readJson STATE_PATH w) = Ok st ->
  In s (surfaces_of env) ->
  is_ok (scanSurface gw st fuel s) = false ->
  is_ok (fst (main localeCompare env gw now fuel w)) = false /\
  snd (main localeCompare env gw now fuel w) = w.
Proof.
  intros Hread Hin Hfail. unfold main, bind, liftR.
  destruct (assertEnv env) as [u|e|]; try now split.
  destruct (readJson STATE_PATH w) as [r w'] eqn:R.
  assert (w' = w) by (unfold readJson in R; now injection R).
  subst w'. cbn [fst] in Hread. subst r.
  now apply (sweep_scan_failure (surfaces_of env) st w s).
Qed.

(** A run that has changed the world, by output or on disk, has loaded
    its state and scanned every surface with success. *)
Lemma main_changes_only_after_scans (env : environment) (w : world) :
  snd (main localeCompare env gw now fuel w) <> w ->
  exists st by_surface,
    fst (readJson STATE_PATH w) = Ok st /\
    scanSurfaces gw st fuel (surfaces_of env) [] = Ok by_surface /\
    forall s, In s (surfaces_of env) ->
              is_ok (scanSurface gw st fuel s) = true.
Proof.
  unfold main, bind, liftR.
  destruct (assertEnv env) as [u|e|]; try (intros H; now contradiction H).
  destruct (readJson STATE_PATH w) as [r w'] eqn:R.
  assert (w' = w) by (unfold readJson in R; now injection R). subst w'.
  destruct r as [st|e|]; try (intros H; now contradiction H).
  unfold sweep.
  destruct (negb (Nat.eqb _ 0)); [intros H; now contradiction H|].
  unfold bind, liftR.
  destruct (scanSurfaces gw st fuel (surfaces_of env) [])
    as [by_surface|e|] eqn:Hscan; try (intros H; now contradiction H).
  intros _. exists st, by_surface.
  split; [reflexivity|]. split; [exact Hscan|].
  intros s Hin. destruct (is_ok (scanSurface gw st fuel s)) eqn:E;
    [reflexivity|].
  pose proof (scanSurfaces_failure st (surfaces_of env) s [] Hin E) as H.
  rewrite Hscan in H. discriminate.
Qed.
End Run.

(** C1. The checkpoint is advanced only after a complete, successful scan
    of every configured surface. A run that has changed anything, on disk
    or in its output, has scanned every configured surface with success;
    a run in which the scan of any configured surface fails does not
    succeed and writes nothing, so the checkpoint on disk after it is the
    checkpoint on disk before it; and a failed comment fetch for any item
    of a surface fails the scan of that surface. *)
Theorem checkpoint_advances_only_after_full_scan
    (localeCompare : string -> string -> Z) (env : environment)
    (gw : gateway) (now : string) (fuel : nat) (w : world) :
  (snd (main localeCompare env gw now fuel w) <> w ->
   exists st by_surface,
     fst (readJson STATE_PATH w) = Ok st /\
     scanSurfaces gw st fuel (surfaces_of env) [] = Ok by_surface /\
     forall s, In s (surfaces_of env) ->
               is_ok (scanSurface gw st fuel s) = true)
  /\
  (forall st s,
     fst (readJson STATE_PATH w) = Ok st ->
     In s (surfaces_of env) ->
     is_ok (scanSurface gw st fuel s) = false ->
     is_ok (fst (main localeCompare env gw now fuel w)) = false /\
     disk (snd (main localeCompare env gw now fuel w)) = disk w /\
     lookup STATE_PATH
       (files (disk (snd (main localeCompare env gw now fuel w))))
     = lookup STATE_PATH (files (disk w)))
  /\
  (forall st s db dsId pages p,
     getDatabaseAndDataSourceId gw (js_or_default (dbId s) "undefined")
       = Ok (db, dsId) ->
     queryDataSource gw dsId (lastRunIso st) fuel = Ok pages ->
     In p pages ->
     is_ok (getCommentsSince gw (page_id p) (lastRunIso st) fuel) = false ->
     is_ok (scanSurface gw st fuel s) = false).
Proof.
  split; [apply main_changes_only_after_scans | split].
  - intros st s Hread Hin Hfail.
    destruct (main_scan_failure localeCompare gw now fuel env w st s
                Hread Hin Hfail) as [Hno Hsame].
    split; [exact Hno|]. now rewrite Hsame.
  - intros st s db dsId pages p. apply scanSurface_comment_failure.
Qed.

Lemma checkpoint_advances_only_after_full_scan_witness :
  (is_ok (fst (main codeUnitCompare env_ok gatewaySecondFails t2 5 world_old))
   = false /\
   disk (snd (main codeUnitCompare env_ok gatewaySecondFails t2 5 world_old))
   = disk world_old /\
   lookup STATE_PATH
     (files (disk (snd (main codeUnitCompare env_ok gatewaySecondFails t2 5
                          world_old))))
   = lookup STATE_PATH (files (disk world_old))) /\
  is_ok (scanSurface gatewayCommentFails state_old 5 surfaceTasks) = false.
Proof.
  split.
  - apply (proj1 (proj2 (checkpoint_advances_only_after_full_scan
                           codeUnitCompare env_ok gatewaySecondFails t2 5
                           world_old))
             state_old surfaceEvents).
    + reflexivity.
    + simpl. right. left. reflexivity.
    + vm_compute. reflexivity.
  - apply (proj2 (proj2 (checkpoint_advances_only_after_full_scan
                           codeUnitCompare env_ok gatewayCommentFails t2 5
                           world_old))
             state_old surfaceTasks
             {| data_source_id := None;
                data_sources := Some [ {| data_source_ident := Some "db-tasks" |} ];
                database_title := None |}
             "db-tasks" [page_fresh; page_edited] page_edited).
    + vm_compute. reflexivity.
    + vm_compute. reflexivity.
    + simpl. right. left. reflexivity.
    + vm_compute. reflexivity.
Defined.

(** A healthy run does advance the checkpoint: the run succeeds, the
    report is emitted and the new state is on disk. *)
Example healthy_run_commits :
  fst (main codeUnitCompare env_ok gatewayHealthy t2 5 world_old) = Ok tt /\
  List.length
    (stdout (snd (main codeUnitCompare env_ok gatewayHealthy t2 5 world_old)))
  = 1 /\
  lookup STATE_PATH
    (files (disk (snd (main codeUnitCompare env_ok gatewayHealthy t2 5
                         world_old))))
  = Some (JsonText
      {| lastRunIso := Some t2;
         seenIds := Some [("Tasks", [("page-fresh", t1); ("page-edited", t1);
                                     ("page-seen", t0)]);
                          ("EventsQueue", [("page-event", t2)]);
                          ("ImportsQueue", [])];
         otherFields := [("note", "kept")] |}).
Proof. vm_compute. repeat split. Qed.

(** A run whose scans all succeed can still fail at the save: on a full
    disk the report is printed, the run ends with the error of the write,
    and the state file is left empty. When the state directory cannot be
    created the save fails before the file is touched. *)
Example full_disk_run_reports_then_fails :
  fst (main codeUnitCompare env_ok gatewayHealthy t2 5 world_full)
  = Throw (ENOSPC STATE_PATH) /\
  List.length
    (stdout (snd (main codeUnitCompare env_ok gatewayHealthy t2 5 world_full)))
  = 1 /\
  lookup STATE_PATH
    (files (disk (snd (main codeUnitCompare env_ok gatewayHealthy t2 5
                         world_full))))
  = Some (RawText "") /\
  fst (run_ops (writeJson_ops STATE_PATH state_new) disk_blocked)
  = Throw (ENOTDIR "/Users/adammanka/clawd/state") /\
  snd (run_ops (writeJson_ops STATE_PATH state_new) disk_blocked) = [].
Proof. vm_compute. repeat split. Qed.

(** C6 evaluated on a machine without a state file. The sweeper loads its
    checkpoint with [readJson], which rejects when the file is absent:
    the run ends with that error before any scan, whereas the loader of
    the sibling watcher scripts returns the default checkpoint. A file
    that exists but does not parse makes the sweeper fail with a syntax
    error. *)
Theorem sweeper_fails_without_state_file
    (localeCompare : string -> string -> Z) (gw : gateway) (now : string)
    (fuel : nat) :
  lookup STATE_PATH (files (disk world_first_run)) = None /\
  readJson STATE_PATH world_first_run =
    (Throw (ENOENT STATE_PATH), world_first_run) /\
  main localeCompare env_ok gw now fuel world_first_run =
    (Throw (ENOENT STATE_PATH), world_first_run) /\
  Watcher.readJsonIfExists STATE_PATH state_empty world_first_run =
    (Ok state_empty, world_first_run) /\
  main localeCompare env_ok gw now fuel world_corrupt =
    (Throw (SyntaxError STATE_PATH), world_corrupt).
Proof. repeat split. Qed.

(** ** Checkpoint Committer *)

Section Merge.
Variable ranAt : string.

Lemma mergeSeen_fold (gs : groups) (cur : seen_map) :
  mergeSeen ranAt gs cur = fold_left (recordSeen ranAt) (allItems gs) cur.
Proof.
  unfold mergeSeen, allItems. cbn [fold_left group_get].
  now rewrite !fold_left_app.
Qed.




End Merge.

Section Retention.
Variable localeCompare : string -> string -> Z.

Hypothesis collation_transitive :
  forall a b c : string,
    (localeCompare a b <= 0)%Z -> (localeCompare b c <= 0)%Z ->
    (localeCompare a c <= 0)%Z.

Hypothesis collation_total :
  forall a b : string,
    (0 < localeCompare a b)%Z -> (localeCompare b a <= 0)%Z.

Let R := newerFirst localeCompare.

Lemma insertEntry_perm (x : string * string) (l : list (string * string)) :
  Permutation (x :: l) (insertEntry localeCompare x l).
Proof.
  induction l as [|y rest IH]; cbn [insertEntry]; [reflexivity|].
  destruct (byStampDesc localeCompare x y <=? 0)%Z; [reflexivity|].
  rewrite perm_swap. now apply perm_skip.
Qed.

Lemma sortEntries_perm (l : list (string * string)) :
  Permutation l (sortEntries localeCompare l).
Proof.
  induction l as [|x rest IH]; cbn [sortEntries fold_right]; [reflexivity|].
  rewrite <- insertEntry_perm. now apply perm_skip.
Qed.







End Retention.

Section RetentionOrder.
Variable localeCompare : string -> string -> Z.


Lemma boundSeen_subset (cur : seen_map) (e : string * string) :
  In e (boundSeen localeCompare cur) -> In e cur.
Proof.
  unfold boundSeen. intros H.
  apply (Permutation_in _ (Permutation_sym (sortEntries_perm localeCompare cur))).
  rewrite <- (firstn_skipn SEEN_CAP (sortEntries localeCompare cur)).
  apply in_or_app. now left.
Qed.

Lemma boundSeen_under_cap (cur : seen_map) :
  List.length cur <= SEEN_CAP ->
  Permutation (boundSeen localeCompare cur) cur.
Proof.
  intros Hlen. unfold boundSeen. rewrite firstn_all2.
  - apply Permutation_sym, sortEntries_perm.
  - now rewrite <- (Permutation_length (sortEntries_perm localeCompare cur)).
Qed.

End RetentionOrder.

Section Commit.
Variable localeCompare : string -> string -> Z.
Variable rep : report.

Lemma commitSurface_ok (lr : option string) (m : list (string * seen_map))
    (o : list (string * string)) (s : surface) :
  lookup (key s) (bySurface rep) <> None ->
  commitSurface localeCompare rep
    {| lastRunIso := lr; seenIds := Some m; otherFields := o |} s =
  Ok {| lastRunIso := lr;
        seenIds := Some (assoc_set (seenKey s)
                           (committedSeen localeCompare rep m s) m);
        otherFields := o |}.
Proof.
  intros Hrep. unfold commitSurface, committedSeen. cbn [seenIds].
  destruct (lookup (key s) (bySurface rep)); [reflexivity | congruence].
Qed.

Lemma committedSeen_ext (m m' : list (string * seen_map)) (s : surface) :
  lookup (seenKey s) m' = lookup (seenKey s) m ->
  committedSeen localeCompare rep m' s = committedSeen localeCompare rep m s.
Proof. intros H. unfold committedSeen. now rewrite H. Qed.

Lemma commitSurfaces_spec (lr : option string) (o : list (string * string))
    (surfaces : list surface) :
  forall m : list (string * seen_map),
    NoDup (map seenKey surfaces) ->
    (forall s, In s surfaces -> lookup (key s) (bySurface rep) <> None) ->
    exists m',
      commitSurfaces localeCompare rep
        {| lastRunIso := lr; seenIds := Some m; otherFields := o |} surfaces
      = Ok {| lastRunIso := lr; seenIds := Some m'; otherFields := o |} /\
      (forall s, In s surfaces ->
         lookup (seenKey s) m' = Some (committedSeen localeCompare rep m s)) /\
      (forall k, ~ In k (map seenKey surfaces) -> lookup k m' = lookup k m).
Proof.
  induction surfaces as [|s rest IH]; intros m Hnd Hrep.
  - exists m. split; [reflexivity|]. split; [intros s [] | reflexivity].
  - cbn [map] in Hnd. apply NoDup_cons_iff in Hnd as [Hfresh Hnd].
    cbn [commitSurfaces].
    rewrite commitSurface_ok by (apply Hrep; now left). cbn [rbind].
    set (m1 := assoc_set (seenKey s) (committedSeen localeCompare rep m s) m).
    destruct (IH m1 Hnd (fun x Hx => Hrep x (or_intror Hx)))
      as [m' [Hrun [Hkept Hother]]].
    exists m'. split; [exact Hrun|]. split.
    + intros x [<- | Hx].
      * rewrite (Hother _ Hfresh). unfold m1.
        now rewrite lookup_assoc_set_same.
      * rewrite (Hkept x Hx). f_equal. apply committedSeen_ext.
        unfold m1. apply lookup_assoc_set_other.
        intros E. apply Hfresh. rewrite <- E. now apply in_map.
    + intros k Hk. cbn [map] in Hk.
      rewrite Hother by (intros H; apply Hk; now right).
      unfold m1. apply lookup_assoc_set_other.
      intros E. apply Hk. now left.
Qed.
End Commit.


(** A checkpoint without a seenIds object cannot be committed: the
    assignment into [nextState.seenIds] throws. *)
Example commit_needs_seenIds :
  commit codeUnitCompare report_quiet
    {| lastRunIso := None; seenIds := None; otherFields := [] |}
    [surfaceTasks]
  = Throw (TypeError "Cannot set properties of undefined").
Proof. reflexivity. Qed.






(** ** Report Builder *)

Lemma group_get_push (g h : group) (it : item) (gs : groups) :
  group_get g (group_push h it gs) =
  group_get g gs ++ (if group_eqb h g then [it] else []).
Proof.
  destruct g, h; cbn [group_get group_push group_eqb group_A group_B
                        group_C group_D];
    try reflexivity; now rewrite app_nil_r.
Qed.

Section Report.
Variable gw : gateway.
Variable st : state.
Variable fuel : nat.

(** The loop over the pages appends one item per page, in the order of
    the pages, and files each item at the end of the list of its group. *)
Lemma scanPages_appends (since : option string) (seen : list string)
    (pages : list page) :
  forall (items : list item) (gs : groups) (items' : list item)
         (gs' : groups),
    scanPages gw since fuel seen pages items gs = Ok (items', gs') ->
    exists fresh,
      items' = items ++ fresh /\
      map item_id fresh = map page_id pages /\
      forall g, group_get g gs' =
                group_get g gs ++
                filter (fun it => group_eqb (item_group it) g) fresh.
Proof.
  induction pages as [|p rest IH]; intros items gs items' gs';
    cbn [scanPages].
  - intros [= <- <-]. exists []. rewrite app_nil_r.
    split; [reflexivity|]. split; [reflexivity|].
    intros g. cbn [filter]. now rewrite app_nil_r.
  - destruct (getCommentsSince gw (page_id p) since fuel) as [cs|e|];
      cbn [rbind]; try discriminate.
    intros Hrun. destruct (IH _ _ _ _ Hrun) as [fresh [H1 [H2 H3]]].
    exists (makeItem seen p cs :: fresh).
    split; [now rewrite H1, <- app_assoc|].
    split; [cbn [map]; now rewrite H2|].
    intros g. rewrite H3, group_get_push. cbn [filter].
    destruct (group_eqb (item_group (makeItem seen p cs)) g);
      now rewrite <- app_assoc.
Qed.

Lemma scanSurfaces_ok_inv (surfaces : list surface) :
  forall (acc by_surface : list (string * surface_report)),
    scanSurfaces gw st fuel surfaces acc = Ok by_surface ->
    forall s, In s surfaces -> is_ok (scanSurface gw st fuel s) = true.
Proof.
  induction surfaces as [|x rest IH]; intros acc by_surface Hrun s Hin;
    [contradiction|].
  cbn [scanSurfaces] in Hrun.
  destruct (scanSurface gw st fuel x) as [r|e|] eqn:E; cbn [rbind] in Hrun;
    try discriminate.
  destruct Hin as [<- | Hin]; [now rewrite E | now apply (IH _ _ Hrun)].
Qed.

Lemma scanSurfaces_spec (surfaces : list surface) :
  forall acc : list (string * surface_report),
    NoDup (map key surfaces) ->
    (forall s, In s surfaces -> is_ok (scanSurface gw st fuel s) = true) ->
    exists by_surface,
      scanSurfaces gw st fuel surfaces acc = Ok by_surface /\
      (forall s, In s surfaces ->
         Ok (lookup (key s) by_surface)
         = rbind (scanSurface gw st fuel s) (fun r => Ok (Some r))) /\
      (forall k, ~ In k (map key surfaces) ->
         lookup k by_surface = lookup k acc).
Proof.
  induction surfaces as [|x rest IH]; intros acc Hnd Hok.
  - exists acc. split; [reflexivity|]. split; [intros s [] | reflexivity].
  - cbn [map] in Hnd. apply NoDup_cons_iff in Hnd as [Hfresh Hnd].
    cbn [scanSurfaces].
    pose proof (Hok x (or_introl eq_refl)) as Hx.
    destruct (scanSurface gw st fuel x) as [r|e|] eqn:E; try discriminate.
    cbn [rbind].
    destruct (IH (assoc_set (key x) r acc) Hnd
                 (fun s Hs => Hok s (or_intror Hs)))
      as [by_surface [Hrun [Hin Hout]]].
    exists by_surface. split; [exact Hrun|]. split.
    + intros s [<- | Hs].
      * rewrite E. cbn [rbind]. rewrite (Hout _ Hfresh).
        now rewrite lookup_assoc_set_same.
      * now apply Hin.
    + intros k Hk. cbn [map] in Hk.
      rewrite Hout by (intros H; apply Hk; now right).
      apply lookup_assoc_set_other. intros H. apply Hk. now left.
Qed.

(** Processing surfaces of distinct keys in another order yields the same
    section under every surface key. *)
Lemma scanSurfaces_order (l l' : list surface)
    (by1 : list (string * surface_report)) :
  NoDup (map key l) -> Permutation l l' ->
  scanSurfaces gw st fuel l [] = Ok by1 ->
  exists by2,
    scanSurfaces gw st fuel l' [] = Ok by2 /\
    forall k, lookup k by1 = lookup k by2.
Proof.
  intros Hnd Hperm Hrun.
  pose proof (scanSurfaces_ok_inv l [] by1 Hrun) as Hok.
  assert (Hnd' : NoDup (map key l')).
  { eapply Permutation_NoDup; [|exact Hnd]. now apply Permutation_map. }
  assert (Hok' : forall s, In s l' -> is_ok (scanSurface gw st fuel s) = true).
  { intros s Hs. apply Hok.
    now apply (Permutation_in _ (Permutation_sym Hperm)). }
  destruct (scanSurfaces_spec l [] Hnd Hok) as [b1 [R1 [I1 O1]]].
  destruct (scanSurfaces_spec l' [] Hnd' Hok') as [b2 [R2 [I2 O2]]].
  rewrite Hrun in R1. injection R1 as <-.
  exists b2. split; [exact R2|].
  intros k.
  destruct (in_dec string_dec k (map key l)) as [Hk | Hk].
  - apply in_map_iff in Hk as [s [<- Hs]].
    pose proof (I1 s Hs) as E1.
    pose proof (I2 s (Permutation_in _ Hperm Hs)) as E2.
    rewrite <- E2 in E1. now injection E1.
  - rewrite (O1 k Hk). symmetry. apply O2.
    intros H. apply Hk.
    apply (Permutation_in _ (Permutation_sym (Permutation_map key Hperm))).
    exact H.
Qed.
End Report.

(** C9, as amended. The report does not depend on the order in which the
    surfaces are processed as far as its sections go: surfaces are
    scanned one after another and each section is stored under its
    surface key, so for surfaces of distinct keys a run over any
    rearrangement of them succeeds as well and holds the same section
    under every key. Within a section nothing is sorted: there is one
    item per returned page, in the order the gateway returned them, and
    each group lists its items in that order. *)
Theorem report_keyed_by_surface_items_in_arrival_order (gw : gateway)
    (st : state) (fuel : nat) :
  (forall l l' by1,
     NoDup (map key l) -> Permutation l l' ->
     scanSurfaces gw st fuel l [] = Ok by1 ->
     exists by2,
       scanSurfaces gw st fuel l' [] = Ok by2 /\
       forall k, lookup k by1 = lookup k by2)
  /\
  (forall since seen pages items gs,
     scanPages gw since fuel seen pages [] empty_groups = Ok (items, gs) ->
     map item_id items = map page_id pages /\
     forall g, group_get g gs =
               filter (fun it => group_eqb (item_group it) g) items).
Proof.
  split.
  - intros l l' by1. apply scanSurfaces_order.
  - intros since seen pages items gs Hrun.
    destruct (scanPages_appends gw fuel since seen pages [] empty_groups
                items gs Hrun) as [fresh [H1 [H2 H3]]].
    cbn [app] in H1. subst fresh. split; [exact H2|].
    intros g. rewrite H3. now destruct g.
Qed.

Lemma report_keyed_by_surface_items_in_arrival_order_witness :
  (exists by2,
     scanSurfaces gatewayHealthy state_old 5 [surfaceEvents; surfaceTasks] []
     = Ok by2 /\
     forall k,
       lookup k
         (match scanSurfaces gatewayHealthy state_old 5
                  [surfaceTasks; surfaceEvents] [] with
          | Ok by1 => by1
          | _ => []
          end)
       = lookup k by2) /\
  map item_id [item_of page_b; item_of page_a] = map page_id [page_b; page_a].
Proof.
  pose proof (report_keyed_by_surface_items_in_arrival_order
                gatewayHealthy state_old 5) as [Horder _].
  pose proof (report_keyed_by_surface_items_in_arrival_order
                gatewayBA state_old 5) as [_ Hitems].
  split.
  - apply (Horder [surfaceTasks; surfaceEvents] [surfaceEvents; surfaceTasks]).
    + repeat constructor; simpl; intuition discriminate.
    + apply perm_swap.
    + vm_compute. reflexivity.
  - apply (Hitems (Some t0) [] [page_b; page_a]
             [item_of page_b; item_of page_a]
             {| group_A := []; group_B := [item_of page_b; item_of page_a];
                group_C := []; group_D := [] |}).
    vm_compute. reflexivity.
Defined.

(** C9 as stated fails: aggregation follows arrival order, not item id.
    The two items of a surface arrive as item-b, item-a and are reported
    in that order, not by id; the same two items arriving as item-a,
    item-b give another report. The emitted document also lists the
    surface sections in the order in which the surfaces were processed. *)
Lemma report_follows_arrival_order :
  (exists r1 r2,
     scanSurface gatewayBA state_old 5 surfaceTasks = Ok r1 /\
     scanSurface gatewayAB state_old 5 surfaceTasks = Ok r2 /\
     map item_id (group_B (surface_groups r1)) = ["item-b"; "item-a"] /\
     map item_id (group_B (surface_groups r2)) = ["item-a"; "item-b"] /\
     r1 <> r2) /\
  option_map (map (fun r => keys (bySurface r)))
    (emitted (sweep codeUnitCompare gatewayHealthy t2 5
                [surfaceTasks; surfaceEvents] state_old) world_old)
  = Some [["Tasks"; "EventsQueue"]] /\
  option_map (map (fun r => keys (bySurface r)))
    (emitted (sweep codeUnitCompare gatewayHealthy t2 5
                [surfaceEvents; surfaceTasks] state_old) world_old)
  = Some [["EventsQueue"; "Tasks"]].
Proof.
  split; [|split; vm_compute; reflexivity].
  eexists. eexists.
  split; [vm_compute; reflexivity|].
  split; [vm_compute; reflexivity|].
  split; [reflexivity|]. split; [reflexivity|].
  intros E.
  apply (f_equal (fun r => map item_id (group_B (surface_groups r)))) in E.
  vm_compute in E. discriminate.
Qed.

(** * Further properties of the scripts *)

(** ** Change Classifier, read backwards *)

(** X1. The four groups are told apart exactly by the three inputs of
    the classifier: COMMENTED means there are comments since the
    watermark; UNCHANGED means there are none and the item was seen
    before; NEW means there are none, the item was not seen before and
    both timestamps are present and equal; UPDATED is every other unseen
    item without comments. *)
Theorem classification_characterised (p : page)
    (cs : option (list comment_slim)) (wasSeen : bool) :
  (classifyItem p cs wasSeen = COMMENTED <-> or_empty cs <> []) /\
  (classifyItem p cs wasSeen = UNCHANGED <->
   or_empty cs = [] /\ wasSeen = true) /\
  (classifyItem p cs wasSeen = NEW <->
   or_empty cs = [] /\ wasSeen = false /\
   truthy (created_time p) = true /\ truthy (last_edited_time p) = true /\
   created_time p = last_edited_time p) /\
  (classifyItem p cs wasSeen = UPDATED <->
   or_empty cs = [] /\ wasSeen = false /\
   (truthy (created_time p) = false \/ truthy (last_edited_time p) = false \/
    created_time p <> last_edited_time p)).
Proof.
  unfold COMMENTED, UNCHANGED, NEW, UPDATED.
  destruct (or_empty cs) as [|c rest] eqn:E.
  - rewrite (classifyItem_quiet p cs wasSeen E).
    destruct wasSeen; cbn [negb].
    + repeat split; try discriminate; try tauto;
        intros H; decompose [and] H; discriminate.
    + destruct (truthy (created_time p)) eqn:Tc;
        destruct (truthy (last_edited_time p)) eqn:Te; cbn [andb];
        try (repeat split; try discriminate; try tauto;
             intros H; decompose [and] H; discriminate).
      destruct (strict_eq (created_time p) (last_edited_time p)) eqn:S.
      * apply strict_eq_true in S.
        repeat split; try discriminate; try tauto;
          intros H; decompose [and] H; try discriminate.
        match goal with
        | H : _ \/ _ \/ _ |- _ => destruct H as [H|[H|H]]
        end; try discriminate. contradiction.
      * assert (created_time p <> last_edited_time p).
        { intros Eq. apply strict_eq_true in Eq. congruence. }
        repeat split; try discriminate; try tauto;
          intros H'; decompose [and] H'; try discriminate; contradiction.
  - assert (Hc : classifyItem p cs wasSeen = GroupC).
    { apply classifyItem_commented. rewrite E. discriminate. }
    rewrite Hc.
    repeat split; try discriminate;
      intros H; decompose [and] H; discriminate.
Qed.

(** ** Titles and excerpts *)

Lemma append_empty_r (s : string) : (s ++ "")%string = s.
Proof. induction s as [|c s IH]; simpl; [reflexivity | now rewrite IH]. Qed.

Lemma append_assoc (a b c : string) :
  ((a ++ b) ++ c)%string = (a ++ (b ++ c))%string.
Proof. induction a as [|x a IH]; simpl; [reflexivity | now rewrite IH]. Qed.

Lemma concat_empty_cons (x : string) (l : list string) :
  String.concat "" (x :: l) = (x ++ String.concat "" l)%string.
Proof.
  destruct l as [|y l]; cbn [String.concat].
  - now rewrite append_empty_r.
  - reflexivity.
Qed.

Lemma concat_empty_app (a b : list string) :
  String.concat "" (a ++ b)
  = (String.concat "" a ++ String.concat "" b)%string.
Proof.
  induction a as [|x a IH]; [reflexivity|].
  cbn [app]. now rewrite !concat_empty_cons, IH, append_assoc.
Qed.

(** X2. The excerpt of a rich text is the concatenation of the plain
    texts of its pieces, in order: the excerpt of two runs put together
    is the two excerpts put together, a piece without plain text adds
    nothing, and a value that is not an array gives the empty excerpt. *)
Theorem excerpt_concatenates (a b : list rich_text) :
  excerptFromRichText (Some (a ++ b))
  = (excerptFromRichText (Some a) ++ excerptFromRichText (Some b))%string /\
  excerptFromRichText (Some (a ++ {| plain_text := None |} :: b))
  = excerptFromRichText (Some (a ++ b)) /\
  (forall s, excerptFromRichText (Some ({| plain_text := Some s |} :: b))
             = (s ++ excerptFromRichText (Some b))%string) /\
  excerptFromRichText None = "".
Proof.
  unfold excerptFromRichText. split; [|split; [|split]].
  - now rewrite map_app, concat_empty_app.
  - rewrite !map_app. cbn [map js_or_default plain_text].
    now rewrite !concat_empty_app, concat_empty_cons.
  - intros s. cbn [map plain_text]. rewrite concat_empty_cons.
    unfold js_or_default. destruct (s =? "") eqn:E; [|reflexivity].
    apply String.eqb_eq in E. now subst s.
  - reflexivity.
Qed.

Lemma title_type_match {T : Type} (ty : string) (X Y : T) :
  ty <> "title" ->
  match ty with
  | "title" => X
  | _ => Y
  end = Y.
Proof.
  intros N.
  do 5 (destruct ty as [|[[] [] [] [] [] [] [] []] ty]; try reflexivity).
  destruct ty; [|reflexivity]. exfalso. now apply N.
Qed.

Lemma firstTitle_origin (props : list (string * property)) (t : string) :
  firstTitle props = Some t ->
  t <> "" /\
  exists k v, In (k, v) props /\ prop_type v = Some "title" /\
              t = excerptFromRichText (prop_title v).
Proof.
  induction props as [|[k v] rest IH]; cbn [firstTitle]; [discriminate|].
  assert (Hrest : firstTitle rest = Some t ->
                  t <> "" /\
                  exists k' v', In (k', v') ((k, v) :: rest) /\
                                prop_type v' = Some "title" /\
                                t = excerptFromRichText (prop_title v')).
  { intros H. destruct (IH H) as [Hne [k' [v' [Hin Hv]]]].
    split; [exact Hne|]. exists k', v'. split; [now right | exact Hv]. }
  destruct (prop_type v) as [ty|] eqn:E; [|exact Hrest].
  destruct (string_dec ty "title") as [-> | N].
  - destruct (excerptFromRichText (prop_title v) =? "") eqn:Q;
      [exact Hrest|].
    intros [= <-]. apply String.eqb_neq in Q. split; [exact Q|].
    exists k, v. split; [now left | now split].
  - now rewrite (title_type_match ty _ _ N).
Qed.

(** X3. A page always gets a non-empty title: the text of one of its
    properties of type title, or else its id, or else the word
    Untitled. *)
Theorem page_title_never_empty (p : page) :
  pageTitleFromPage p <> "" /\
  ((exists k v, In (k, v) (properties p) /\ prop_type v = Some "title" /\
                pageTitleFromPage p = excerptFromRichText (prop_title v)) \/
   (pageTitleFromPage p = page_id p /\ firstTitle (properties p) = None) \/
   (pageTitleFromPage p = "Untitled" /\ page_id p = "")).
Proof.
  unfold pageTitleFromPage.
  destruct (firstTitle (properties p)) as [t|] eqn:E.
  - destruct (firstTitle_origin _ _ E) as [Hne Hex].
    split; [exact Hne | now left].
  - destruct (page_id p =? "") eqn:Q.
    + apply String.eqb_eq in Q. split; [discriminate | right; right; auto].
    + apply String.eqb_neq in Q. split; [exact Q | right; left; auto].
Qed.

Lemma substring_length_le (n : nat) :
  forall s : string, String.length (substring 0 n s) <= n.
Proof.
  induction n as [|n IH]; intros [|c s]; cbn [substring String.length];
    try lia.
  specialize (IH s). lia.
Qed.

Lemma substring_prefix (n : nat) :
  forall s : string, prefix (substring 0 n s) s = true.
Proof.
  induction n as [|n IH]; intros [|c s]; cbn [substring prefix];
    try reflexivity.
  destruct (ascii_dec c c); [apply IH | congruence].
Qed.

Lemma substring_short (n : nat) :
  forall s : string, String.length s <= n -> substring 0 n s = s.
Proof.
  induction n as [|n IH]; intros [|c s]; cbn [substring String.length];
    intros H; try reflexivity; try lia.
  rewrite IH by lia. reflexivity.
Qed.

Lemma js_or_default_nonempty (a : option string) (d : string) :
  d <> "" -> js_or_default a d <> "".
Proof.
  intros Hd. unfold js_or_default. destruct a as [s|]; [|exact Hd].
  destruct (s =? "") eqn:E; [exact Hd|]. now apply String.eqb_neq.
Qed.

(** X4. The slimmed comment kept in the report carries the id and the
    creation time of the comment, an author label that is never empty,
    and as text the first 500 characters of the comment's plain text: at
    most 500 characters, a prefix of the plain text, and the whole plain
    text when that is no longer than 500. *)
Theorem slim_comment_bounded (c : comment) :
  slim_id (slimComment c) = comment_id c /\
  slim_created_time (slimComment c) = comment_created_time c /\
  slim_created_by (slimComment c) <> "" /\
  String.length (slim_text (slimComment c)) <= 500 /\
  prefix (slim_text (slimComment c)) (commentPlainText c) = true /\
  (String.length (commentPlainText c) <= 500 ->
   slim_text (slimComment c) = commentPlainText c).
Proof.
  unfold slimComment. cbn [slim_id slim_created_time slim_created_by slim_text].
  split; [reflexivity|]. split; [reflexivity|]. split.
  - destruct (created_by c) as [u|]; [|discriminate].
    apply js_or_default_nonempty. discriminate.
  - split; [apply substring_length_le|].
    split; [apply substring_prefix | apply substring_short].
Qed.

Lemma slim_comment_bounded_witness :
  slim_text (slimComment comment_authored) = commentPlainText comment_authored.
Proof.
  apply (proj2 (proj2 (proj2 (proj2 (proj2
           (slim_comment_bounded comment_authored)))))).
  vm_compute. lia.
Defined.

(** ** Resolving the data source of a database *)

(** X5. The data source of a database is its [data_source_id] when that
    is present and not empty, and otherwise the id of the first of its
    [data_sources], when that is present and not empty; the id returned
    is never empty and comes with the database object the gateway sent.
    Without either the call throws, and an error of the gateway is passed
    on. *)
Theorem data_source_resolution (gw : gateway) (databaseId : string) :
  (forall db ds,
     getDatabaseAndDataSourceId gw databaseId = Ok (db, ds) ->
     fetchDatabase gw databaseId = Ok db /\ ds <> "" /\
     (data_source_id db = Some ds \/
      (truthy (data_source_id db) = false /\
       exists d rest, data_sources db = Some (d :: rest) /\
                      data_source_ident d = Some ds))) /\
  (forall db ds,
     fetchDatabase gw databaseId = Ok db ->
     data_source_id db = Some ds -> ds <> "" ->
     getDatabaseAndDataSourceId gw databaseId = Ok (db, ds)) /\
  (forall db d rest ds,
     fetchDatabase gw databaseId = Ok db ->
     truthy (data_source_id db) = false ->
     data_sources db = Some (d :: rest) ->
     data_source_ident d = Some ds -> ds <> "" ->
     getDatabaseAndDataSourceId gw databaseId = Ok (db, ds)) /\
  (forall db,
     fetchDatabase gw databaseId = Ok db ->
     truthy (data_source_id db) = false ->
     data_sources db = None \/ data_sources db = Some [] \/
     (exists d rest, data_sources db = Some (d :: rest) /\
                     truthy (data_source_ident d) = false) ->
     getDatabaseAndDataSourceId gw databaseId
     = Throw (MissingDataSourceId databaseId)) /\
  (forall e,
     fetchDatabase gw databaseId = Throw e ->
     getDatabaseAndDataSourceId gw databaseId = Throw e).
Proof.
  unfold getDatabaseAndDataSourceId.
  split; [|split; [|split; [|split]]].
  - intros db ds.
    destruct (fetchDatabase gw databaseId) as [db'|e|]; cbn [rbind];
      try discriminate.
    unfold js_or.
    destruct (truthy (data_source_id db')) eqn:T.
    + destruct (data_source_id db') as [i|] eqn:D; [|discriminate].
      destruct (i =? "") eqn:Q; [discriminate|].
      intros [= <- <-]. apply String.eqb_neq in Q. auto.
    + destruct (data_sources db') as [[|d rest]|] eqn:L; try discriminate.
      destruct (data_source_ident d) as [i|] eqn:I; [|discriminate].
      destruct (i =? "") eqn:Q; [discriminate|].
      intros [= <- <-]. apply String.eqb_neq in Q.
      split; [reflexivity|]. split; [exact Q|]. right.
      split; [exact T|]. exists d, rest. auto.
  - intros db ds F D Hne. rewrite F. cbn [rbind]. unfold js_or, truthy.
    rewrite D. apply String.eqb_neq in Hne. rewrite Hne. cbn [negb].
    now rewrite Hne.
  - intros db d rest ds F T L I Hne. rewrite F. cbn [rbind]. unfold js_or.
    rewrite T, L, I. apply String.eqb_neq in Hne. now rewrite Hne.
  - intros db F T L. rewrite F. cbn [rbind]. unfold js_or. rewrite T.
    destruct L as [-> | [-> | [d [rest [-> I]]]]]; try reflexivity.
    unfold truthy in I. destruct (data_source_ident d) as [i|]; [|reflexivity].
    destruct (i =? ""); [reflexivity | discriminate].
  - intros e F. now rewrite F.
Qed.

Lemma data_source_resolution_witness :
  getDatabaseAndDataSourceId gatewayBothIds "db-tasks"
  = Ok ({| data_source_id := Some "ds-direct";
           data_sources := Some [ {| data_source_ident := Some "ds-listed" |} ];
           database_title := None |}, "ds-direct") /\
  getDatabaseAndDataSourceId gatewayListedOnly "db-tasks"
  = Ok ({| data_source_id := Some "";
           data_sources := Some [ {| data_source_ident := Some "ds-listed" |};
                                  {| data_source_ident := Some "ds-second" |} ];
           database_title := None |}, "ds-listed") /\
  getDatabaseAndDataSourceId gatewayNoIds "db-tasks"
  = Throw (MissingDataSourceId "db-tasks").
Proof.
  split; [|split].
  - apply (proj1 (proj2 (data_source_resolution gatewayBothIds "db-tasks"))).
    + reflexivity.
    + reflexivity.
    + discriminate.
  - apply (proj1 (proj2 (proj2
             (data_source_resolution gatewayListedOnly "db-tasks")))
             _ {| data_source_ident := Some "ds-listed" |}
             [ {| data_source_ident := Some "ds-second" |} ]).
    + reflexivity.
    + reflexivity.
    + reflexivity.
    + reflexivity.
    + discriminate.
  - apply (proj1 (proj2 (proj2 (proj2
             (data_source_resolution gatewayNoIds "db-tasks"))))
             {| data_source_id := None;
                data_sources := Some [ {| data_source_ident := Some "" |} ];
                database_title := None |}).
    + reflexivity.
    + reflexivity.
    + right. right. eexists _, _. split; reflexivity.
Defined.

(** ** What a surface section holds *)

Section Sections.
Variable gw : gateway.
Variable fuel : nat.

Lemma scanPages_made (since : option string) (seen : list string)
    (pages : list page) :
  forall (items : list item) (gs : groups) (items' : list item)
         (gs' : groups),
    scanPages gw since fuel seen pages items gs = Ok (items', gs') ->
    exists fresh,
      items' = items ++ fresh /\
      Forall2 (fun p it =>
                 exists cs,
                   getCommentsSince gw (page_id p) since fuel = Ok cs /\
                   it = makeItem seen p cs)
              pages fresh.
Proof.
  induction pages as [|p rest IH]; intros items gs items' gs';
    cbn [scanPages].
  - intros [= <- <-]. exists []. rewrite app_nil_r. split; constructor.
  - destruct (getCommentsSince gw (page_id p) since fuel) as [cs|e|] eqn:E;
      cbn [rbind]; try discriminate.
    intros Hrun. destruct (IH _ _ _ _ Hrun) as [fresh [H1 H2]].
    exists (makeItem seen p cs :: fresh).
    split; [now rewrite H1, <- app_assoc|].
    constructor; [now exists cs | exact H2].
Qed.

Lemma scanSurface_inv (st : state) (s : surface) (r : surface_report) :
  scanSurface gw st fuel s = Ok r ->
  exists db ds pages items gs,
    getDatabaseAndDataSourceId gw (js_or_default (dbId s) "undefined")
      = Ok (db, ds) /\
    queryDataSource gw ds (lastRunIso st) fuel = Ok pages /\
    scanPages gw (lastRunIso st) fuel (keys (seenMapOf st s)) pages []
      empty_groups = Ok (items, gs) /\
    surface_groups r = gs /\
    surface_totals r =
      {| queriedPages := List.length pages;
         total_A := List.length (group_A gs);
         total_B := List.length (group_B gs);
         total_C := List.length (group_C gs);
         total_D := List.length (group_D gs) |} /\
    surfaceName r = name s /\ databaseId r = dbId s /\ dataSourceId r = ds.
Proof.
  unfold scanSurface, seenMapOf.
  destruct (getDatabaseAndDataSourceId gw _) as [[db ds]|e|] eqn:D;
    cbn [rbind]; try discriminate.
  destruct (queryDataSource gw ds (lastRunIso st) fuel) as [pages|e|] eqn:Q;
    cbn [rbind]; try discriminate.
  destruct (scanPages _ _ _ _ _ _ _) as [[items gs]|e|] eqn:P; cbn [rbind];
    try discriminate.
  intros [= <-]. exists db, ds, pages, items, gs.
  split; [reflexivity|]. split; [exact Q|]. split; [exact P|].
  cbn [surface_groups surface_totals surfaceName databaseId dataSourceId].
  repeat split.
Qed.
End Sections.

Lemma group_partition_length (items : list item) :
  List.length (filter (fun it => group_eqb (item_group it) GroupA) items)
  + List.length (filter (fun it => group_eqb (item_group it) GroupB) items)
  + List.length (filter (fun it => group_eqb (item_group it) GroupC) items)
  + List.length (filter (fun it => group_eqb (item_group it) GroupD) items)
  = List.length items.
Proof.
  induction items as [|it rest IH]; [reflexivity|].
  cbn [filter]. destruct (item_group it); cbn [group_eqb List.length]; lia.
Qed.

Lemma group_partition_perm (items : list item) :
  Permutation
    (filter (fun it => group_eqb (item_group it) GroupA) items ++
     filter (fun it => group_eqb (item_group it) GroupB) items ++
     filter (fun it => group_eqb (item_group it) GroupC) items ++
     filter (fun it => group_eqb (item_group it) GroupD) items)
    items.
Proof.
  induction items as [|it rest IH]; [constructor|].
  cbn [filter]. destruct (item_group it); cbn [group_eqb app].
  - now apply perm_skip.
  - rewrite ?app_assoc. symmetry. apply Permutation_cons_app.
    rewrite <- ?app_assoc. now symmetry.
  - rewrite ?app_assoc. symmetry. apply Permutation_cons_app.
    rewrite <- ?app_assoc. now symmetry.
  - rewrite ?app_assoc. symmetry. apply Permutation_cons_app.
    rewrite <- ?app_assoc. now symmetry.
Qed.

Lemma group_eqb_eq (g h : group) : group_eqb g h = true <-> g = h.
Proof. destruct g, h; cbn [group_eqb]; split; congruence. Qed.

(** X6. In every surface section of the report the four group totals are
    the sizes of the four group lists and add up to the number of pages
    queried, every listed item carries the tag of the group it is listed
    under, and the ids of the listed items are the ids of the queried
    pages: no page is left out and none is counted twice. *)
Theorem section_totals_add_up (gw : gateway) (st : state) (fuel : nat)
    (s : surface) (r : surface_report) :
  scanSurface gw st fuel s = Ok r ->
  let t := surface_totals r in
  let gs := surface_groups r in
  total_A t = List.length (group_A gs) /\
  total_B t = List.length (group_B gs) /\
  total_C t = List.length (group_C gs) /\
  total_D t = List.length (group_D gs) /\
  total_A t + total_B t + total_C t + total_D t = queriedPages t /\
  (forall g it, In it (group_get g gs) -> item_group it = g) /\
  (exists pages,
     queryDataSource gw (dataSourceId r) (lastRunIso st) fuel = Ok pages /\
     queriedPages t = List.length pages /\
     Permutation (map item_id (allItems gs)) (map page_id pages)).
Proof.
  intros Hrun.
  destruct (scanSurface_inv gw fuel st s r Hrun)
    as [db [ds [pages [items [gs [_ [Hq [Hp [Hg [Ht [_ [_ Hds]]]]]]]]]]]].
  destruct (scanPages_appends gw fuel _ _ _ _ _ _ _ Hp)
    as [fresh [H1 [H2 H3]]].
  cbn [app] in H1. subst fresh. cbn zeta. rewrite Ht, Hg, Hds.
  cbn [total_A total_B total_C total_D queriedPages].
  assert (HA := H3 GroupA). assert (HB := H3 GroupB).
  assert (HC := H3 GroupC). assert (HD := H3 GroupD).
  cbn [group_get empty_groups group_A group_B group_C group_D app] in *.
  repeat (split; [reflexivity|]).
  split.
  { rewrite HA, HB, HC, HD, group_partition_length.
    rewrite <- (length_map item_id), H2. apply length_map. }
  split.
  { intros g it Hin. rewrite H3 in Hin.
    assert (E : group_get g empty_groups = []) by now destruct g.
    rewrite E in Hin. cbn [app] in Hin.
    apply filter_In in Hin as [_ Hin]. now apply group_eqb_eq. }
  exists pages. split; [exact Hq|]. split; [reflexivity|].
  rewrite <- H2. unfold allItems. rewrite HA, HB, HC, HD.
  apply Permutation_map, group_partition_perm.
Qed.

Lemma section_totals_add_up_witness :
  exists r,
    scanSurface gatewayHealthy state_old 5 surfaceTasks = Ok r /\
    total_A (surface_totals r) + total_B (surface_totals r)
    + total_C (surface_totals r) + total_D (surface_totals r)
    = queriedPages (surface_totals r).
Proof.
  destruct (scanSurface gatewayHealthy state_old 5 surfaceTasks)
    as [r|e|] eqn:Hrun; [|vm_compute in Hrun; discriminate..].
  exists r. split; [reflexivity|].
  apply (section_totals_add_up gatewayHealthy state_old 5 surfaceTasks r Hrun).
Defined.

Lemma Forall2_In_r {A B : Type} (P : A -> B -> Prop) (l : list A)
    (l' : list B) (y : B) :
  Forall2 P l l' -> In y l' -> exists x, In x l /\ P x y.
Proof.
  induction 1 as [|a b l l' Hab _ IH]; intros Hin; [contradiction|].
  destruct Hin as [<- | Hin].
  - exists a. split; [now left | exact Hab].
  - destruct (IH Hin) as [x [Hx Hp]]. exists x. split; [now right | exact Hp].
Qed.

Lemma existsb_eqb_In (k : string) (l : list string) :
  existsb (String.eqb k) l = true <-> In k l.
Proof.
  rewrite existsb_exists. split.
  - intros [x [Hin E]]. apply String.eqb_eq in E. now subst x.
  - intros Hin. exists k. split; [exact Hin | apply String.eqb_refl].
Qed.

Lemma getCommentsSince_kept (gw : gateway) (blockId : string)
    (since : option string) (fuel : nat) (cs : list comment) :
  getCommentsSince gw blockId since fuel = Ok cs ->
  forall c, In c cs -> keepComment since c = true.
Proof.
  unfold getCommentsSince. rewrite commentsLoop_pages.
  destruct (commentPages gw blockId fuel None) as [pages|e|]; cbn [rbind];
    try discriminate.
  intros [= <-] c Hin. cbn [app] in Hin.
  now apply filter_In in Hin.
Qed.

(** Every item of a section was made from a queried page and the comments
    fetched for it. *)
Lemma section_item_origin (gw : gateway) (st : state) (fuel : nat)
    (s : surface) (r : surface_report) (g : group) (it : item) :
  scanSurface gw st fuel s = Ok r ->
  In it (group_get g (surface_groups r)) ->
  item_group it = g /\
  exists p cs,
    getCommentsSince gw (page_id p) (lastRunIso st) fuel = Ok cs /\
    it = makeItem (keys (seenMapOf st s)) p cs.
Proof.
  intros Hrun Hin.
  destruct (scanSurface_inv gw fuel st s r Hrun)
    as [db [ds [pages [items [gs [_ [_ [Hp [Hg _]]]]]]]]].
  rewrite Hg in Hin.
  destruct (scanPages_appends gw fuel _ _ _ _ _ _ _ Hp)
    as [fresh [H1 [_ H3]]].
  destruct (scanPages_made gw fuel _ _ _ _ _ _ _ Hp) as [fresh' [H1' H2']].
  cbn [app] in H1, H1'. subst fresh fresh'.
  rewrite H3 in Hin.
  assert (E : group_get g empty_groups = []) by now destruct g.
  rewrite E in Hin. cbn [app] in Hin.
  apply filter_In in Hin as [Hin Hgrp]. apply group_eqb_eq in Hgrp.
  split; [exact Hgrp|].
  destruct (Forall2_In_r _ _ _ _ H2' Hin) as [p [_ [cs [Hc Hit]]]].
  now exists p, cs.
Qed.

(** X7. In a surface section an item is listed under COMMENTED exactly
    when it lists at least one comment; an item listed under UNCHANGED
    has its id in the seen map the checkpoint holds for that surface, and
    an item listed under NEW or UPDATED does not. *)
Theorem section_groups_reflect_checkpoint (gw : gateway) (st : state)
    (fuel : nat) (s : surface) (r : surface_report) (g : group) (it : item) :
  scanSurface gw st fuel s = Ok r ->
  In it (group_get g (surface_groups r)) ->
  (g = COMMENTED <-> commentsSinceLastRun it <> []) /\
  (g = UNCHANGED -> In (item_id it) (keys (seenMapOf st s))) /\
  (g = NEW \/ g = UPDATED -> ~ In (item_id it) (keys (seenMapOf st s))).
Proof.
  intros Hrun Hin.
  destruct (section_item_origin gw st fuel s r g it Hrun Hin)
    as [Hgrp [p [cs [_ ->]]]].
  cbn [item_group makeItem] in Hgrp.
  cbn [commentsSinceLastRun makeItem item_id].
  unfold COMMENTED, UNCHANGED, NEW, UPDATED.
  destruct (map slimComment cs) as [|sc rest] eqn:E.
  - rewrite classifyItem_quiet in Hgrp by reflexivity.
    destruct (existsb (String.eqb (page_id p)) (keys (seenMapOf st s)))
      eqn:Seen.
    + subst g. split; [split; [discriminate | congruence]|].
      split; [intros _; now apply existsb_eqb_In|].
      intros [H|H]; discriminate.
    + assert (Hnot : ~ In (page_id p) (keys (seenMapOf st s))).
      { intros H. apply existsb_eqb_In in H. congruence. }
      split; [split; [|congruence]|].
      * intros ->. destruct (_ && _); discriminate.
      * split; [|intros _; exact Hnot].
        intros ->. destruct (_ && _); discriminate.
  - rewrite classifyItem_commented in Hgrp by (cbn [or_empty]; discriminate).
    subst g. split; [split; [discriminate | reflexivity]|].
    split; [discriminate|]. intros [H|H]; discriminate.
Qed.

Lemma section_groups_reflect_checkpoint_witness :
  exists r it,
    scanSurface gatewayDiscussed state_old 5 surfaceTasks = Ok r /\
    In it (group_C (surface_groups r)) /\
    commentsSinceLastRun it <> [].
Proof.
  destruct (scanSurface gatewayDiscussed state_old 5 surfaceTasks)
    as [r|e|] eqn:Hrun; [|vm_compute in Hrun; discriminate..].
  assert (Hin : In (makeItem ["page-seen"] page_seen
                      [comment_old; comment_recent; comment_undated])
                   (group_get GroupC (surface_groups r))).
  { vm_compute in Hrun. injection Hrun as <-. left. reflexivity. }
  exists r, (makeItem ["page-seen"] page_seen
               [comment_old; comment_recent; comment_undated]).
  split; [reflexivity|]. split; [exact Hin|].
  apply (proj1 (section_groups_reflect_checkpoint gatewayDiscussed state_old 5
                  surfaceTasks r GroupC _ Hrun Hin)).
  reflexivity.
Defined.

(** X8. Every comment listed with an item of the report is the slimmed
    form of a comment the gateway served for that item and that passes
    the watermark test of the run: its creation time is missing or not
    before the watermark, or the run has no watermark. *)
Theorem section_comments_pass_watermark (gw : gateway) (st : state)
    (fuel : nat) (s : surface) (r : surface_report) (g : group) (it : item)
    (sc : comment_slim) :
  scanSurface gw st fuel s = Ok r ->
  In it (group_get g (surface_groups r)) ->
  In sc (commentsSinceLastRun it) ->
  exists c,
    sc = slimComment c /\
    (truthy (lastRunIso st) = false \/
     truthy (comment_created_time c) = false \/
     js_ge (comment_created_time c) (lastRunIso st) = true) /\
    exists cs,
      getCommentsSince gw (item_id it) (lastRunIso st) fuel = Ok cs /\
      In c cs /\ commentsSinceLastRun it = map slimComment cs.
Proof.
  intros Hrun Hin Hsc.
  destruct (section_item_origin gw st fuel s r g it Hrun Hin)
    as [_ [p [cs [Hc ->]]]].
  cbn [commentsSinceLastRun makeItem item_id] in *.
  apply in_map_iff in Hsc as [c [<- Hcin]].
  exists c. split; [reflexivity|]. split.
  - apply keepComment_spec.
    exact (getCommentsSince_kept gw _ _ _ _ Hc c Hcin).
  - exists cs. auto.
Qed.

Lemma section_comments_pass_watermark_witness :
  exists r c,
    scanSurface gatewayDiscussed state_old 5 surfaceTasks = Ok r /\
    slimComment comment_recent = slimComment c /\
    (truthy (lastRunIso state_old) = false \/
     truthy (comment_created_time c) = false \/
     js_ge (comment_created_time c) (lastRunIso state_old) = true).
Proof.
  destruct (scanSurface gatewayDiscussed state_old 5 surfaceTasks)
    as [r|e|] eqn:Hrun; [|vm_compute in Hrun; discriminate..].
  assert (Hin : In (makeItem ["page-seen"] page_seen
                      [comment_old; comment_recent; comment_undated])
                   (group_get GroupC (surface_groups r))).
  { vm_compute in Hrun. injection Hrun as <-. left. reflexivity. }
  destruct (section_comments_pass_watermark gatewayDiscussed state_old 5
              surfaceTasks r GroupC _ (slimComment comment_recent) Hrun Hin)
    as [c [Hc [Hw _]]].
  { right. left. reflexivity. }
  exists r, c. split; [reflexivity|]. split; [exact Hc | exact Hw].
Defined.

(** ** Invariants of the committer *)

Section KeysFacts.
Variable V : Type.

Lemma in_keys_assoc_set (k x : string) (v : V) (m : list (string * V)) :
  In x (keys (assoc_set k v m)) <-> x = k \/ In x (keys m).
Proof.
  unfold keys. induction m as [|[k' v'] m IH]; cbn [assoc_set map fst In].
  - split; [intros [H|[]]; auto | intros [H|[]]; auto].
  - destruct (k' =? k) eqn:E; cbn [map fst In].
    + apply String.eqb_eq in E. subst k'. intuition.
    + rewrite IH. intuition.
Qed.

Lemma assoc_set_keeps_NoDup (k : string) (v : V) (m : list (string * V)) :
  NoDup (keys m) -> NoDup (keys (assoc_set k v m)).
Proof.
  unfold keys. induction m as [|[k' v'] m IH]; cbn [assoc_set map fst];
    intros Hnd.
  - constructor; [intros [] | constructor].
  - apply NoDup_cons_iff in Hnd as [Hfresh Hnd].
    destruct (k' =? k) eqn:E; cbn [map fst].
    + apply String.eqb_eq in E. subst k'. now constructor.
    + constructor; [|now apply IH].
      intros Hin. apply (in_keys_assoc_set k k' v m) in Hin as [H|H].
      * subst k'. rewrite String.eqb_refl in E. discriminate.
      * contradiction.
Qed.

Lemma lookup_in_keys (k : string) (m : list (string * V)) :
  lookup k m <> None <-> In k (keys m).
Proof.
  unfold keys. induction m as [|[k' v'] m IH]; cbn [lookup map fst In].
  - split; [congruence | intros []].
  - destruct (k' =? k) eqn:E.
    + apply String.eqb_eq in E. split; [auto | discriminate].
    + apply String.eqb_neq in E. rewrite IH. intuition.
Qed.
End KeysFacts.

Lemma mergeSeen_keys (ranAt : string) (gs : groups) (cur : seen_map) :
  (NoDup (keys cur) -> NoDup (keys (mergeSeen ranAt gs cur))) /\
  (forall k, In k (keys (mergeSeen ranAt gs cur)) <->
             In k (keys cur) \/ In k (map item_id (allItems gs))).
Proof.
  rewrite mergeSeen_fold. generalize (allItems gs) as items.
  intros items. revert cur.
  induction items as [|it rest IH]; intros cur; cbn [fold_left map In].
  - split; [auto | intuition].
  - destruct (IH (recordSeen ranAt cur it)) as [Hnd Hin]. split.
    + intros H. apply Hnd. now apply assoc_set_keeps_NoDup.
    + intros k. rewrite Hin. unfold recordSeen.
      rewrite in_keys_assoc_set. intuition.
Qed.

Lemma boundSeen_keys (localeCompare : string -> string -> Z)
    (cur : seen_map) :
  (NoDup (keys cur) -> NoDup (keys (boundSeen localeCompare cur))) /\
  (forall k, In k (keys (boundSeen localeCompare cur)) -> In k (keys cur)).
Proof.
  unfold boundSeen, keys. split.
  - intros Hnd. rewrite <- firstn_map.
    apply (Permutation_NoDup
             (Permutation_map fst (sortEntries_perm localeCompare cur))) in Hnd.
    rewrite <- (firstn_skipn SEEN_CAP (map fst _)) in Hnd.
    now apply NoDup_app_remove_r in Hnd.
  - intros k Hin. apply in_map_iff in Hin as [e [<- He]].
    apply in_map. now apply boundSeen_subset in He.
Qed.

Section CommitFacts.
Variable localeCompare : string -> string -> Z.
Variable rep : report.

Lemma commitSurface_inv (ns ns' : state) (s : surface) :
  commitSurface localeCompare rep ns s = Ok ns' ->
  exists m surfaced,
    seenIds ns = Some m /\
    lookup (key s) (bySurface rep) = Some surfaced /\
    ns' = {| lastRunIso := lastRunIso ns;
             seenIds := Some (assoc_set (seenKey s)
                                (committedSeen localeCompare rep m s) m);
             otherFields := otherFields ns |}.
Proof.
  unfold commitSurface, committedSeen.
  destruct (lookup (key s) (bySurface rep)) as [surfaced|]; [|discriminate].
  destruct (seenIds ns) as [m|]; [|discriminate].
  intros [= <-]. now exists m, surfaced.
Qed.

(** What a commit over a list of surfaces leaves alone, and what it
    needs. *)
Lemma commitSurfaces_frame (surfaces : list surface) :
  forall ns ns' : state,
    commitSurfaces localeCompare rep ns surfaces = Ok ns' ->
    lastRunIso ns' = lastRunIso ns /\
    otherFields ns' = otherFields ns /\
    (forall k, ~ In k (map seenKey surfaces) ->
       lookup k (or_empty (seenIds ns')) = lookup k (or_empty (seenIds ns))) /\
    (forall s, In s surfaces ->
       lookup (key s) (bySurface rep) <> None /\ seenIds ns <> None) /\
    ((forall k v, lookup k (or_empty (seenIds ns)) = Some v ->
                  NoDup (keys v)) ->
     forall k v, lookup k (or_empty (seenIds ns')) = Some v ->
                 NoDup (keys v)).
Proof.
  induction surfaces as [|s rest IH]; intros ns ns'; cbn [commitSurfaces].
  - intros [= <-]. repeat split; auto; contradiction.
  - destruct (commitSurface localeCompare rep ns s) as [ns1|e|] eqn:E;
      cbn [rbind]; try discriminate.
    intros Hrun.
    destruct (commitSurface_inv ns ns1 s E) as [m [surfaced [Hm [Hs ->]]]].
    destruct (IH _ _ Hrun) as [H1 [H2 [H3 [H4 H5]]]].
    cbn [lastRunIso otherFields seenIds or_empty] in *.
    split; [exact H1|]. split; [exact H2|]. split; [|split].
    + intros k Hk. cbn [map In] in Hk. rewrite H3 by tauto.
      rewrite Hm. cbn [or_empty]. apply lookup_assoc_set_other.
      intros ->. tauto.
    + intros x [<- | Hx].
      * rewrite Hs, Hm. split; discriminate.
      * split; [apply (H4 x Hx) | rewrite Hm; discriminate].
    + intros Hinv. apply H5. intros k v.
      rewrite lookup_assoc_set. rewrite Hm in Hinv. cbn [or_empty] in Hinv.
      destruct (k =? seenKey s); [|apply Hinv].
      intros [= <-]. unfold committedSeen. rewrite Hs.
      apply boundSeen_keys, mergeSeen_keys.
      destruct (lookup (seenKey s) m) as [v|] eqn:L; cbn [or_empty].
      * now apply (Hinv (seenKey s)).
      * constructor.
Qed.
End CommitFacts.

(** X9. Committing keeps every seen map a map: when no seen map of the
    loaded checkpoint lists an id twice, no seen map of the committed
    checkpoint does, and every id a committed seen map lists was either
    listed before or is the id of an item of the report. *)
Theorem committed_seen_ids_stay_distinct
    (localeCompare : string -> string -> Z) (rep : report) (st st' : state)
    (surfaces : list surface) :
  commit localeCompare rep st surfaces = Ok st' ->
  (forall k v, lookup k (or_empty (seenIds st)) = Some v -> NoDup (keys v)) ->
  (forall k v, lookup k (or_empty (seenIds st')) = Some v ->
               NoDup (keys v)) /\
  (forall ranAt gs cur k,
     In k (keys (boundSeen localeCompare (mergeSeen ranAt gs cur))) ->
     In k (keys cur) \/ In k (map item_id (allItems gs))).
Proof.
  unfold commit. intros Hrun Hinv. split.
  - apply (commitSurfaces_frame localeCompare rep surfaces _ _ Hrun).
    exact Hinv.
  - intros ranAt gs cur k Hin.
    apply boundSeen_keys in Hin. now apply mergeSeen_keys in Hin.
Qed.

Lemma committed_seen_ids_stay_distinct_witness :
  exists st',
    commit codeUnitCompare report_tasks state_old [surfaceTasks] = Ok st' /\
    forall k v, lookup k (or_empty (seenIds st')) = Some v -> NoDup (keys v).
Proof.
  destruct (commit codeUnitCompare report_tasks state_old [surfaceTasks])
    as [st'|e|] eqn:Hrun; [|vm_compute in Hrun; discriminate..].
  exists st'. split; [reflexivity|].
  apply (committed_seen_ids_stay_distinct codeUnitCompare report_tasks
           state_old st' [surfaceTasks] Hrun).
  intros k v. cbn [state_old seenIds or_empty lookup].
  destruct (_ =? k); [intros [= <-]; repeat constructor; intros []|].
  destruct (_ =? k); [intros [= <-]; constructor|].
  destruct (_ =? k); [intros [= <-]; constructor | discriminate].
Defined.

(** X10. A commit touches nothing but the watermark and the seen maps of
    the surfaces it is given: the watermark becomes the run timestamp of
    the report, the other fields of the checkpoint and the seen maps
    stored under other keys are carried over, and it succeeds only if the
    checkpoint has a seenIds object and the report a section for every
    surface. *)
Theorem commit_carries_the_rest_over
    (localeCompare : string -> string -> Z) (rep : report) (st st' : state)
    (surfaces : list surface) :
  commit localeCompare rep st surfaces = Ok st' ->
  lastRunIso st' = Some (ranAtIso rep) /\
  otherFields st' = otherFields st /\
  (forall k, ~ In k (map seenKey surfaces) ->
     lookup k (or_empty (seenIds st')) = lookup k (or_empty (seenIds st))) /\
  (forall s, In s surfaces ->
     lookup (key s) (bySurface rep) <> None /\ seenIds st <> None).
Proof.
  unfold commit. intros Hrun.
  destruct (commitSurfaces_frame localeCompare rep surfaces _ _ Hrun)
    as [H1 [H2 [H3 [H4 _]]]].
  cbn [lastRunIso otherFields seenIds] in *. auto.
Qed.

Lemma commit_carries_the_rest_over_witness :
  exists st',
    commit codeUnitCompare report_tasks state_old [surfaceTasks] = Ok st' /\
    lastRunIso st' = Some t2 /\
    otherFields st' = [("note", "kept")] /\
    lookup "EventsQueue" (or_empty (seenIds st')) = Some [].
Proof.
  destruct (commit codeUnitCompare report_tasks state_old [surfaceTasks])
    as [st'|e|] eqn:Hrun; [|vm_compute in Hrun; discriminate..].
  destruct (commit_carries_the_rest_over codeUnitCompare report_tasks
              state_old st' [surfaceTasks] Hrun) as [H1 [H2 [H3 _]]].
  exists st'. split; [reflexivity|]. split; [exact H1|]. split; [exact H2|].
  rewrite H3; [reflexivity|].
  cbn [map seenKey surfaceTasks In]. intros [H|[]]. discriminate.
Defined.

(** ** One run after another *)

(** X11. What a run reports it recognises the next time: after a commit
    in which the merged seen map of a surface stays within the cap, the
    committed seen map of that surface lists every id it listed before
    and the id of every item of the surface's section, so that a later
    scan classifies such an item, met again without new comments, as
    UNCHANGED. *)
Theorem committed_items_are_seen_next_time
    (localeCompare : string -> string -> Z) (rep : report) (st st' : state)
    (surfaces : list surface) (s : surface) (surfaced : surface_report) :
  commit localeCompare rep st surfaces = Ok st' ->
  NoDup (map seenKey surfaces) ->
  In s surfaces ->
  lookup (key s) (bySurface rep) = Some surfaced ->
  List.length (mergeSeen (ranAtIso rep) (surface_groups surfaced)
                 (seenMapOf st s)) <= SEEN_CAP ->
  (forall k, In k (keys (seenMapOf st s)) -> In k (keys (seenMapOf st' s))) /\
  (forall it, In it (allItems (surface_groups surfaced)) ->
     In (item_id it) (keys (seenMapOf st' s)) /\
     forall p, page_id p = item_id it ->
       item_group (makeItem (keys (seenMapOf st' s)) p []) = UNCHANGED).
Proof.
  intros Hrun Hnd Hin Hsurf Hcap.
  pose proof (commitSurfaces_frame localeCompare rep surfaces _ _ Hrun)
    as [_ [_ [_ [Hneed _]]]].
  destruct (seenIds st) as [m|] eqn:Hm;
    [|destruct (Hneed s Hin) as [_ H]; cbn [seenIds] in H; congruence].
  unfold commit in Hrun. rewrite Hm in Hrun.
  destruct (commitSurfaces_spec localeCompare rep (Some (ranAtIso rep))
              (otherFields st) surfaces m Hnd (fun x Hx => proj1 (Hneed x Hx)))
    as [m' [Hrun' [Hkept _]]].
  rewrite Hrun in Hrun'. injection Hrun' as ->.
  assert (Hnew : seenMapOf
                   {| lastRunIso := Some (ranAtIso rep); seenIds := Some m';
                      otherFields := otherFields st |} s
                 = boundSeen localeCompare
                     (mergeSeen (ranAtIso rep) (surface_groups surfaced)
                        (seenMapOf st s))).
  { unfold seenMapOf at 1. cbn [seenIds]. rewrite (Hkept s Hin).
    cbn [or_empty]. unfold committedSeen, seenMapOf.
    now rewrite Hsurf, Hm. }
  rewrite Hnew.
  assert (Hkeys : forall k,
            In k (keys (mergeSeen (ranAtIso rep) (surface_groups surfaced)
                          (seenMapOf st s))) ->
            In k (keys (boundSeen localeCompare
                          (mergeSeen (ranAtIso rep) (surface_groups surfaced)
                             (seenMapOf st s))))).
  { intros k Hk. unfold keys in *.
    eapply Permutation_in; [|exact Hk].
    apply Permutation_map, Permutation_sym, boundSeen_under_cap.
    exact Hcap. }
  split.
  - intros k Hk. apply Hkeys, mergeSeen_keys. now left.
  - intros it Hit.
    assert (Hid : In (item_id it)
                     (keys (boundSeen localeCompare
                              (mergeSeen (ranAtIso rep)
                                 (surface_groups surfaced) (seenMapOf st s))))).
    { apply Hkeys, mergeSeen_keys. right. now apply in_map. }
    split; [exact Hid|].
    intros p Hp. cbn [item_group makeItem map].
    rewrite classifyItem_quiet by reflexivity.
    rewrite Hp. apply existsb_eqb_In in Hid. now rewrite Hid.
Qed.

Lemma committed_items_are_seen_next_time_witness :
  exists st',
    commit codeUnitCompare report_tasks state_old [surfaceTasks] = Ok st' /\
    In "page-seen" (keys (seenMapOf st' surfaceTasks)) /\
    item_group (makeItem (keys (seenMapOf st' surfaceTasks)) page_fresh [])
    = UNCHANGED.
Proof.
  destruct (commit codeUnitCompare report_tasks state_old [surfaceTasks])
    as [st'|e|] eqn:Hrun; [|vm_compute in Hrun; discriminate..].
  destruct (committed_items_are_seen_next_time codeUnitCompare report_tasks
              state_old st' [surfaceTasks] surfaceTasks
              (match lookup "Tasks" (bySurface report_tasks) with
               | Some r => r
               | None => quietSurface
               end) Hrun) as [Hold Hnew].
  - repeat constructor. intros [].
  - left. reflexivity.
  - reflexivity.
  - vm_compute. lia.
  - exists st'. split; [reflexivity|]. split.
    + apply Hold. left. reflexivity.
    + apply (Hnew (item_of page_fresh)); [left|]; reflexivity.
Defined.

Section KeysOrder.
Variable V : Type.

Lemma keys_assoc_set_fresh (k : string) (v : V) (m : list (string * V)) :
  ~ In k (keys m) -> keys (assoc_set k v m) = keys m ++ [k].
Proof.
  unfold keys. induction m as [|[k' v'] m IH]; cbn [assoc_set map fst In app];
    intros Hfresh; [reflexivity|].
  destruct (k' =? k) eqn:E.
  - apply String.eqb_eq in E. tauto.
  - cbn [map fst]. rewrite IH by tauto. reflexivity.
Qed.
End KeysOrder.

Lemma scanSurfaces_keys (gw : gateway) (st : state) (fuel : nat)
    (surfaces : list surface) :
  forall acc by_surface,
    scanSurfaces gw st fuel surfaces acc = Ok by_surface ->
    NoDup (keys acc ++ map key surfaces) ->
    keys by_surface = keys acc ++ map key surfaces.
Proof.
  induction surfaces as [|s rest IH]; intros acc by_surface;
    cbn [scanSurfaces map].
  - intros [= <-] _. now rewrite app_nil_r.
  - destruct (scanSurface gw st fuel s) as [r|e|]; cbn [rbind];
      try discriminate.
    intros Hrun Hnd.
    assert (Hfresh : ~ In (key s) (keys acc)).
    { intros H. apply NoDup_remove_2 in Hnd. apply Hnd.
      apply in_or_app. now left. }
    rewrite (IH _ _ Hrun); rewrite (keys_assoc_set_fresh _ _ _ _ Hfresh);
      rewrite <- app_assoc; [reflexivity | exact Hnd].
Qed.

Section RunFacts.
Variable localeCompare : string -> string -> Z.
Variable gw : gateway.
Variable now : string.
Variable fuel : nat.

(** What a successful run went through. *)
Lemma main_success_inv (env : environment) (w w' : world) :
  main localeCompare env gw now fuel w = (Ok tt, w') ->
  exists st by_surface nextState,
    truthy (NOTION_API_KEY env) = true /\
    (forall s, In s (surfaces_of env) -> truthy (dbId s) = true) /\
    readJson STATE_PATH w = (Ok st, w) /\
    scanSurfaces gw st fuel (surfaces_of env) [] = Ok by_surface /\
    commit localeCompare
      {| ranAtIso := now; report_lastRunIso := lastRunIso st;
         bySurface := by_surface |} st (surfaces_of env) = Ok nextState /\
    writeJson STATE_PATH nextState
      {| disk := disk w;
         stdout := stdout w ++ [ {| ranAtIso := now;
                                    report_lastRunIso := lastRunIso st;
                                    bySurface := by_surface |} ] |}
    = (Ok tt, w').
Proof.
  unfold main, bind, liftR, assertEnv.
  destruct (truthy (NOTION_API_KEY env)) eqn:K; [|discriminate].
  destruct (readJson STATE_PATH w) as [[st|e|] w0] eqn:R; try discriminate.
  assert (w0 = w) by (unfold readJson in R; now injection R). subst w0.
  unfold sweep, bind, liftR.
  destruct (negb (Nat.eqb (List.length
              (map key (filter (fun s => negb (truthy (dbId s)))
                               (surfaces_of env)))) 0)) eqn:Miss;
    [discriminate|].
  destruct (scanSurfaces gw st fuel (surfaces_of env) [])
    as [by_surface|e|] eqn:Hscan; try discriminate.
  destruct (commit localeCompare _ st (surfaces_of env))
    as [nextState|e|] eqn:Hcommit; try discriminate.
  cbn [console_log]. intros Hw.
  exists st, by_surface, nextState.
  split; [reflexivity|].
  split; [|split; [reflexivity|]; split; [exact Hscan|];
           split; [exact Hcommit | exact Hw]].
  intros s Hs. destruct (truthy (dbId s)) eqn:T; [reflexivity|].
  exfalso. apply negb_false_iff, Nat.eqb_eq in Miss.
  rewrite length_map in Miss. apply length_zero_iff_nil in Miss.
  assert (Hf : In s (filter (fun s => negb (truthy (dbId s)))
                            (surfaces_of env))).
  { apply filter_In. split; [exact Hs | now rewrite T]. }
  rewrite Miss in Hf. contradiction.
Qed.
End RunFacts.

(** X13. A run that succeeds emits exactly one report and then replaces
    the state file. The report carries the run timestamp, the watermark
    the run started from and one section per configured surface, in the
    configured order; the state file then holds the checkpoint whose
    watermark is the run timestamp and whose other fields are those of
    the checkpoint loaded; no other file has changed. *)
Theorem successful_run_emits_then_commits
    (localeCompare : string -> string -> Z) (env : environment)
    (gw : gateway) (now : string) (fuel : nat) (w w' : world) :
  main localeCompare env gw now fuel w = (Ok tt, w') ->
  exists st rep st',
    readJson STATE_PATH w = (Ok st, w) /\
    stdout w' = stdout w ++ [rep] /\
    ranAtIso rep = now /\
    report_lastRunIso rep = lastRunIso st /\
    keys (bySurface rep) = ["Tasks"; "EventsQueue"; "ImportsQueue"] /\
    readJson STATE_PATH w' = (Ok st', w') /\
    lastRunIso st' = Some now /\
    otherFields st' = otherFields st /\
    (forall q, q <> STATE_PATH ->
       lookup q (files (disk w')) = lookup q (files (disk w))).
Proof.
  intros Hrun.
  destruct (main_success_inv localeCompare gw now fuel env w w' Hrun)
    as [st [by_surface [nextState [_ [_ [Hread [Hscan [Hcommit Hwrite]]]]]]]].
  destruct (commitSurfaces_frame localeCompare _ _ _ _ Hcommit)
    as [Hlast [Hother _]].
  cbn [lastRunIso otherFields ranAtIso] in Hlast, Hother.
  destruct (writeJson_success _ _ _ _ Hwrite) as [fs1 [Hf [_ ->]]].
  cbn [disk stdout] in Hf.
  exists st, {| ranAtIso := now; report_lastRunIso := lastRunIso st;
                bySurface := by_surface |}, nextState.
  cbn [stdout disk ranAtIso report_lastRunIso bySurface].
  split; [exact Hread|]. split; [reflexivity|]. split; [reflexivity|].
  split; [reflexivity|]. split.
  { rewrite (scanSurfaces_keys gw st fuel _ _ _ Hscan); [reflexivity|].
    cbn. repeat constructor; cbn; intuition discriminate. }
  split.
  { unfold readJson, readFile. cbn [disk set_file files].
    now rewrite lookup_assoc_set_same. }
  split; [exact Hlast|]. split; [exact Hother|].
  intros q Hq. cbn [set_file files].
  rewrite !lookup_assoc_set_other by exact Hq. now rewrite Hf.
Qed.

Lemma successful_run_emits_then_commits_witness :
  exists w' rep,
    main codeUnitCompare env_ok gatewayHealthy t2 5 world_old = (Ok tt, w') /\
    stdout w' = stdout world_old ++ [rep] /\
    report_lastRunIso rep = Some t0.
Proof.
  destruct (main codeUnitCompare env_ok gatewayHealthy t2 5 world_old)
    as [[[]|e|] w'] eqn:Hrun; [|vm_compute in Hrun; discriminate..].
  destruct (successful_run_emits_then_commits codeUnitCompare env_ok
              gatewayHealthy t2 5 world_old w' Hrun)
    as [st [rep [st' [Hread [Hout [_ [Hlast _]]]]]]].
  exists w', rep. split; [reflexivity|]. split; [exact Hout|].
  rewrite Hlast. vm_compute in Hread. now injection Hread as <-.
Defined.

(** X14. The watermark chains from run to run: when a run succeeds and
    the next run on the world it left succeeds too, whatever its
    configuration and gateway, the report of the second run names the run
    timestamp of the first as the watermark it started from. *)
Theorem watermark_chains_between_runs
    (lc1 lc2 : string -> string -> Z) (env1 env2 : environment)
    (gw1 gw2 : gateway) (now1 now2 : string) (fuel1 fuel2 : nat)
    (w w1 w2 : world) :
  main lc1 env1 gw1 now1 fuel1 w = (Ok tt, w1) ->
  main lc2 env2 gw2 now2 fuel2 w1 = (Ok tt, w2) ->
  exists rep2,
    stdout w2 = stdout w1 ++ [rep2] /\
    ranAtIso rep2 = now2 /\
    report_lastRunIso rep2 = Some now1.
Proof.
  intros Hfirst Hsecond.
  destruct (main_success_inv lc1 gw1 now1 fuel1 env1 w w1 Hfirst)
    as [st [by1 [next1 [_ [_ [_ [_ [Hcommit Hwrite]]]]]]]].
  destruct (commitSurfaces_frame lc1 _ _ _ _ Hcommit) as [Hlast _].
  cbn [lastRunIso ranAtIso] in Hlast.
  destruct (writeJson_success _ _ _ _ Hwrite) as [fs1 [_ [_ ->]]].
  destruct (main_success_inv lc2 gw2 now2 fuel2 env2 _ w2 Hsecond)
    as [st2 [by2 [next2 [_ [_ [Hread [_ [_ Hwrite2]]]]]]]].
  unfold readJson, readFile in Hread. cbn [disk set_file files] in Hread.
  rewrite lookup_assoc_set_same in Hread. cbn [rbind JSON_parse] in Hread.
  injection Hread as <-.
  destruct (writeJson_success _ _ _ _ Hwrite2) as [fs2 [_ [_ ->]]].
  eexists. cbn [stdout]. split; [reflexivity|].
  cbn [ranAtIso report_lastRunIso]. split; [reflexivity | exact Hlast].
Qed.

Lemma watermark_chains_between_runs_witness :
  exists w1 w2 rep2,
    main codeUnitCompare env_ok gatewayHealthy t1 5 world_old = (Ok tt, w1) /\
    main codeUnitCompare env_ok gatewayDiscussed t2 5 w1 = (Ok tt, w2) /\
    stdout w2 = stdout w1 ++ [rep2] /\
    report_lastRunIso rep2 = Some t1.
Proof.
  destruct (main codeUnitCompare env_ok gatewayHealthy t1 5 world_old)
    as [[[]|e|] w1] eqn:H1; [|vm_compute in H1; discriminate..].
  destruct (main codeUnitCompare env_ok gatewayDiscussed t2 5 w1)
    as [[[]|e|] w2] eqn:H2.
  - destruct (watermark_chains_between_runs codeUnitCompare codeUnitCompare
                env_ok env_ok gatewayHealthy gatewayDiscussed t1 t2 5 5
                world_old w1 w2 H1 H2) as [rep2 [Hout [_ Hmark]]].
    exists w1, w2, rep2. auto.
  - vm_compute in H1. injection H1 as <-. vm_compute in H2. discriminate.
  - vm_compute in H1. injection H1 as <-. vm_compute in H2. discriminate.
Defined.

(** ** Configuration and loading *)

(** X15. The run checks its configuration before it asks the gateway
    anything, in a fixed order: without an API key it ends with a
    configuration error whatever the state file; with a key, a state file
    that cannot be loaded ends it with the loader's error; and with a
    loaded state, a surface without database id ends it with a
    configuration error. In all three cases the world is left as it
    was, whatever the gateway would have answered. *)
Theorem configuration_is_checked_first
    (localeCompare : string -> string -> Z) (env : environment)
    (gw : gateway) (now : string) (fuel : nat) (w : world) :
  (truthy (NOTION_API_KEY env) = false ->
   exists msg,
     main localeCompare env gw now fuel w = (Throw (EnvError msg), w)) /\
  (truthy (NOTION_API_KEY env) = true ->
   forall e, fst (readJson STATE_PATH w) = Throw e ->
     main localeCompare env gw now fuel w = (Throw e, w)) /\
  (truthy (NOTION_API_KEY env) = true ->
   forall st s,
     fst (readJson STATE_PATH w) = Ok st ->
     In s (surfaces_of env) -> truthy (dbId s) = false ->
     exists msg,
       main localeCompare env gw now fuel w = (Throw (EnvError msg), w)).
Proof.
  unfold main, bind, liftR, assertEnv. split; [|split].
  - intros ->. now eexists.
  - intros -> e Hread.
    destruct (readJson STATE_PATH w) as [r w0] eqn:R.
    assert (w0 = w) by (unfold readJson in R; now injection R). subst w0.
    cbn [fst] in Hread. now subst r.
  - intros -> st s Hread Hin Hmissing.
    destruct (readJson STATE_PATH w) as [r w0] eqn:R.
    assert (w0 = w) by (unfold readJson in R; now injection R). subst w0.
    cbn [fst] in Hread. subst r. unfold sweep.
    assert (Hf : In s (filter (fun s => negb (truthy (dbId s)))
                              (surfaces_of env))).
    { apply filter_In. split; [exact Hin | now rewrite Hmissing]. }
    destruct (filter (fun s => negb (truthy (dbId s))) (surfaces_of env))
      as [|x rest]; [contradiction|].
    cbn [map List.length Nat.eqb negb liftR]. now eexists.
Qed.

Lemma configuration_is_checked_first_witness :
  (exists msg,
     main codeUnitCompare env_no_key gatewayHealthy t2 5 world_first_run
     = (Throw (EnvError msg), world_first_run)) /\
  main codeUnitCompare env_no_events gatewayHealthy t2 5 world_corrupt
  = (Throw (SyntaxError STATE_PATH), world_corrupt) /\
  (exists msg,
     main codeUnitCompare env_no_events gatewayHealthy t2 5 world_old
     = (Throw (EnvError msg), world_old)).
Proof.
  split; [|split].
  - apply (proj1 (configuration_is_checked_first codeUnitCompare env_no_key
                    gatewayHealthy t2 5 world_first_run)).
    reflexivity.
  - apply (proj1 (proj2 (configuration_is_checked_first codeUnitCompare
                           env_no_events gatewayHealthy t2 5 world_corrupt)));
      reflexivity.
  - apply (proj2 (proj2 (configuration_is_checked_first codeUnitCompare
                           env_no_events gatewayHealthy t2 5 world_old))
             eq_refl state_old surfaceEvents_unset).
    + reflexivity.
    + right. left. reflexivity.
    + reflexivity.
Defined.

(** ** The seen-comment list of the watcher scripts *)

Lemma distinct_spec (xs : list string) :
  forall seen : list string,
    NoDup (CommentWatcher.distinct seen xs) /\
    (forall x, In x (CommentWatcher.distinct seen xs) <->
               In x xs /\ ~ In x seen).
Proof.
  induction xs as [|y rest IH]; intros seen; cbn [CommentWatcher.distinct].
  - split; [constructor | intros x; cbn [In]; tauto].
  - destruct (existsb (String.eqb y) seen) eqn:E.
    + apply existsb_eqb_In in E.
      destruct (IH seen) as [Hnd Hin]. split; [exact Hnd|].
      intros x. rewrite Hin. cbn [In]. split; [tauto|].
      intros [[<- | H] Hn]; [contradiction | tauto].
    + assert (Hy : ~ In y seen).
      { intros H. apply existsb_eqb_In in H. congruence. }
      destruct (IH (y :: seen)) as [Hnd Hin]. split.
      * constructor; [|exact Hnd]. rewrite Hin. cbn [In]. tauto.
      * intros x. cbn [In]. rewrite Hin. cbn [In].
        destruct (string_dec y x) as [<- | Hne]; tauto.
Qed.

Lemma lastn_spec (n : nat) (xs : list string) :
  List.length (CommentWatcher.lastn n xs) <= n /\
  (forall x, In x (CommentWatcher.lastn n xs) -> In x xs) /\
  (NoDup xs -> NoDup (CommentWatcher.lastn n xs)) /\
  (List.length xs <= n -> CommentWatcher.lastn n xs = xs) /\
  (exists dropped, xs = dropped ++ CommentWatcher.lastn n xs).
Proof.
  unfold CommentWatcher.lastn.
  split; [rewrite length_skipn; lia|].
  split.
  { intros x Hin.
    rewrite <- (firstn_skipn (List.length xs - n) xs).
    apply in_or_app. now right. }
  split.
  { intros Hnd.
    rewrite <- (firstn_skipn (List.length xs - n) xs) in Hnd.
    now apply NoDup_app_remove_l in Hnd. }
  split.
  { intros Hlen. replace (List.length xs - n) with 0 by lia. reflexivity. }
  exists (firstn (List.length xs - n) xs).
  now rewrite firstn_skipn.
Qed.

(** X16. The list of seen comment ids the watcher scripts store next
    holds no id twice and at most 5000 ids, each of them seen before or
    newly found; it is the tail of the previously seen ids followed by
    the new ones, so what is dropped is dropped from the oldest end; and
    as long as the distinct ids number at most 5000 none is dropped. *)
Theorem watcher_seen_list_bounded (seenCommentIds newlySeen : list string) :
  NoDup (CommentWatcher.nextSeen seenCommentIds newlySeen) /\
  List.length (CommentWatcher.nextSeen seenCommentIds newlySeen)
  <= CommentWatcher.MAX_COMMENTS_SEEN /\
  (forall x, In x (CommentWatcher.nextSeen seenCommentIds newlySeen) ->
             In x seenCommentIds \/ In x newlySeen) /\
  (exists dropped,
     CommentWatcher.distinct [] (seenCommentIds ++ newlySeen)
     = dropped ++ CommentWatcher.nextSeen seenCommentIds newlySeen) /\
  (List.length (CommentWatcher.distinct [] (seenCommentIds ++ newlySeen))
   <= CommentWatcher.MAX_COMMENTS_SEEN ->
   forall x, In x seenCommentIds \/ In x newlySeen ->
             In x (CommentWatcher.nextSeen seenCommentIds newlySeen)).
Proof.
  unfold CommentWatcher.nextSeen.
  destruct (distinct_spec (seenCommentIds ++ newlySeen) []) as [Hnd Hin].
  destruct (lastn_spec CommentWatcher.MAX_COMMENTS_SEEN
              (CommentWatcher.distinct [] (seenCommentIds ++ newlySeen)))
    as [Hlen [Hsub [Hkeep [Hall Htail]]]].
  split; [now apply Hkeep|]. split; [exact Hlen|]. split.
  - intros x Hx. apply Hsub, Hin in Hx as [Hx _]. now apply in_app_or.
  - split; [exact Htail|].
    intros Hsmall x Hx. rewrite (Hall Hsmall). apply Hin.
    split; [now apply in_or_app | intros []].
Qed.

Lemma watcher_seen_list_bounded_witness :
  In "c-2" (CommentWatcher.nextSeen ["c-1"; "c-2"] ["c-2"; "c-3"]) /\
  CommentWatcher.nextSeen ["c-1"; "c-2"] ["c-2"; "c-3"] = ["c-1"; "c-2"; "c-3"].
Proof.
  split; [|reflexivity].
  apply (proj2 (proj2 (proj2 (proj2
           (watcher_seen_list_bounded ["c-1"; "c-2"] ["c-2"; "c-3"]))))).
  - vm_compute. lia.
  - left. right. left. reflexivity.
Defined.
